(** * node-hotworddetector: the lifecycle/event wrapper of [src/index.js]

    The module keeps its configuration, its recorder and its detector in
    module-level bindings and wires a snowboy detector to an audio recorder.
    The development below embeds that module as a state-and-exception monad
    over an explicit store, so that aliasing of the two shared default
    objects and of the module-level bindings is visible. *)

From stdpp Require Import base option list gmap strings pretty.
From Stdlib Require Import ZArith.

Open Scope Z_scope.
Open Scope string_scope.
Open Scope nat_scope.
Open Scope list_scope.

(** ** Values and objects *)

Abbreviation loc := nat.
Abbreviation logger := nat.
Definition buffer := list Byte.byte.

(** The property values that occur in model and detector option objects. *)
Inductive value :=
| VStr (s : string)
| VNum (z : Z)
| VArr (l : list string)
| VModels (c : loc)
| VUndefined.

#[global] Instance value_eq_dec : EqDecision value.
Proof. solve_decision. Defined.

(** A plain JS object: own enumerable properties by name. *)
Abbreviation obj := (gmap string value).

(** The four names shared by the detector's signals and the listener's
    events. *)
Inductive event_name := NError | NHotword | NSilence | NSound.

#[global] Instance event_name_eq_dec : EqDecision event_name.
Proof. solve_decision. Defined.

(** What a detector raises. *)
Inductive signal :=
| SigError
| SigHotword (index : Z) (hotword : string) (buf : buffer)
| SigSilence
| SigSound (buf : buffer).

(** What the listener emits: event name and arguments. *)
Inductive event :=
| EvError (msg : string)
| EvHotword (index : Z) (hotword : string) (buf : buffer)
| EvSilence
| EvSound (buf : buffer).

(** The four closures [setupDetector] registers on a detector; each one
    captures the listener [instance] it was created for. *)
Inductive handler :=
| OnError (instance : loc)
| OnHotword (instance : loc)
| OnSilence (instance : loc)
| OnSound (instance : loc).

(** ** Collaborators

    [events.EventEmitter], [node-audiorecorder] and [snowboy] are external
    packages.  They are modelled at the interface the module uses: the
    objects below hold what the module hands to them, and every call that
    leaves the module is recorded in a trace. *)

(** A listener object: the [logger] property stored by the constructor and
    the subscriptions made through the inherited [on]. *)
Record HotwordDetector := {
  inst_logger : option logger;
  inst_listeners : list (event_name * nat)
}.

Inductive rec_status := RecCreated | RecRecording | RecPaused | RecStopped.

(** Modelled from the spec: the capture source collaborator of section 6
    ([node-audiorecorder]), an external package.  It
    is instantiated with a program, a sample rate, a threshold and the
    logger; [start], [stop], [pause] and [resume] return the recorder, whose
    stream is connected to and disconnected from destinations. *)
Record AudioRecorder := {
  rec_program : string;
  rec_sampleRate : Z;
  rec_threshold : Z;
  rec_logger : option logger;
  rec_state : rec_status;
  rec_pipes : list loc
}.

(** Modelled from the spec: the detection engine collaborator of section 6
    (snowboy's [Detector]), an external package.  It
    is instantiated with the options object, raises [error], [hotword],
    [silence] and [sound] to the handlers registered with [on], and is
    disposed with [reset]. *)
Record Detector := {
  det_options : option loc;
  det_handlers : list handler;
  det_resets : nat
}.

Inductive rec_cmd := CStart | CStop | CPause | CResume.

(** Calls that leave the module, in the order they are made. *)
Inductive effect :=
| ELog (l : logger) (msg : string)
| EWarn (l : logger) (msg : string)
| EEmit (instance : loc) (e : event)
| EDetNew (d : loc) (opts : option loc)
| EDetReset (d : loc)
| ERecNew (r : loc)
| ERecCmd (r : loc) (c : rec_cmd)
| EPipe (r : loc) (d : loc)
| EUnpipe (r : loc) (d : option loc).

(** ** The store

    [heap] holds the plain objects, among them the two shared defaults;
    the other arenas hold the collaborator objects, addressed by position.
    The last four fields before [trace] are the module-level [let]
    bindings of lines 18-21. *)
Record state := {
  heap : gmap loc obj;
  collections : list (list loc);
  recorders : list AudioRecorder;
  detectors : list Detector;
  instances : list HotwordDetector;
  audioRecorder : option loc;
  models : option loc;
  detector : option loc;
  detectorOptions : option loc;
  trace : list effect
}.

(** Locations of the two module-level [const] objects. *)
Definition defaultModel : loc := 0.
Definition defaultDetector : loc := 1.

(** Their contents when the module is loaded (lines 10-16). *)
Definition builtin_defaultModel : obj :=
  <["file" := VStr "./node_modules/snowboy/resources/snowboy.umdl"]>
    (<["hotwords" := VStr "snowboy"]> ∅).

Definition builtin_defaultDetector : obj :=
  <["resource" := VStr "./node_modules/snowboy/resources/common.res"]> ∅.

Definition init : state := {|
  heap := <[defaultModel := builtin_defaultModel]>
            (<[defaultDetector := builtin_defaultDetector]> ∅);
  collections := [];
  recorders := [];
  detectors := [];
  instances := [];
  audioRecorder := None;
  models := None;
  detector := None;
  detectorOptions := None;
  trace := []
|}.

(** Field updates. *)
Definition set_heap (f : gmap loc obj → gmap loc obj) (s : state) : state :=
  {| heap := f (heap s); collections := collections s; recorders := recorders s;
     detectors := detectors s; instances := instances s;
     audioRecorder := audioRecorder s; models := models s;
     detector := detector s; detectorOptions := detectorOptions s;
     trace := trace s |}.

Definition set_collections (f : list (list loc) → list (list loc)) (s : state) : state :=
  {| heap := heap s; collections := f (collections s); recorders := recorders s;
     detectors := detectors s; instances := instances s;
     audioRecorder := audioRecorder s; models := models s;
     detector := detector s; detectorOptions := detectorOptions s;
     trace := trace s |}.

Definition set_recorders (f : list AudioRecorder → list AudioRecorder) (s : state) : state :=
  {| heap := heap s; collections := collections s; recorders := f (recorders s);
     detectors := detectors s; instances := instances s;
     audioRecorder := audioRecorder s; models := models s;
     detector := detector s; detectorOptions := detectorOptions s;
     trace := trace s |}.

Definition set_detectors (f : list Detector → list Detector) (s : state) : state :=
  {| heap := heap s; collections := collections s; recorders := recorders s;
     detectors := f (detectors s); instances := instances s;
     audioRecorder := audioRecorder s; models := models s;
     detector := detector s; detectorOptions := detectorOptions s;
     trace := trace s |}.

Definition set_instances (f : list HotwordDetector → list HotwordDetector) (s : state) : state :=
  {| heap := heap s; collections := collections s; recorders := recorders s;
     detectors := detectors s; instances := f (instances s);
     audioRecorder := audioRecorder s; models := models s;
     detector := detector s; detectorOptions := detectorOptions s;
     trace := trace s |}.

Definition set_audioRecorder (r : option loc) (s : state) : state :=
  {| heap := heap s; collections := collections s; recorders := recorders s;
     detectors := detectors s; instances := instances s;
     audioRecorder := r; models := models s;
     detector := detector s; detectorOptions := detectorOptions s;
     trace := trace s |}.

Definition set_models (m : option loc) (s : state) : state :=
  {| heap := heap s; collections := collections s; recorders := recorders s;
     detectors := detectors s; instances := instances s;
     audioRecorder := audioRecorder s; models := m;
     detector := detector s; detectorOptions := detectorOptions s;
     trace := trace s |}.

Definition set_detector (d : option loc) (s : state) : state :=
  {| heap := heap s; collections := collections s; recorders := recorders s;
     detectors := detectors s; instances := instances s;
     audioRecorder := audioRecorder s; models := models s;
     detector := d; detectorOptions := detectorOptions s;
     trace := trace s |}.

Definition set_detectorOptions (o : option loc) (s : state) : state :=
  {| heap := heap s; collections := collections s; recorders := recorders s;
     detectors := detectors s; instances := instances s;
     audioRecorder := audioRecorder s; models := models s;
     detector := detector s; detectorOptions := o;
     trace := trace s |}.

Definition emit_effect (e : effect) (s : state) : state :=
  {| heap := heap s; collections := collections s; recorders := recorders s;
     detectors := detectors s; instances := instances s;
     audioRecorder := audioRecorder s; models := models s;
     detector := detector s; detectorOptions := detectorOptions s;
     trace := trace s ++ [e] |}.

(** ** Computations: state passing with exceptions

    A thrown exception keeps the store as it was when it was raised. *)
Inductive exn :=
| TypeError (what : string)
| UnhandledError (payload : string).

Inductive result (A : Type) :=
| Ok (a : A) (s : state)
| Throw (e : exn) (s : state).
Arguments Ok {A} a s.
Arguments Throw {A} e s.

Definition M (A : Type) : Type := state → result A.

Definition ret {A} (a : A) : M A := λ s, Ok a s.

Definition bind {A B} (m : M A) (k : A → M B) : M B :=
  λ s, match m s with
       | Ok a s' => k a s'
       | Throw e s' => Throw e s'
       end.

Definition throw {A} (e : exn) : M A := λ s, Throw e s.
Definition get : M state := λ s, Ok s s.
Definition modify (f : state → state) : M unit := λ s, Ok tt (f s).
Definition tell (e : effect) : M unit := modify (emit_effect e).

Notation "x <- c1 ;; c2" := (bind c1 (λ x, c2))
  (at level 20, c1 at level 99, c2 at level 200, only parsing).
Notation "c1 ;; c2" := (bind c1 (λ _, c2))
  (at level 100, c2 at level 200, only parsing, right associativity).

Definition final_state {A} (r : result A) : state :=
  match r with Ok _ s => s | Throw _ s => s end.

Definition is_Ok {A} (r : result A) : Prop :=
  match r with Ok _ _ => True | Throw _ _ => False end.

(** JS truthiness of a binding that holds an object or [undefined]. *)
Definition truthy {A} (o : option A) : bool :=
  match o with Some _ => true | None => false end.

(** ** [Object.assign]

    A source is an object literal of the caller, a reference into the
    heap, or [undefined] (which [Object.assign] skips).  The target is
    updated in place and the target reference is returned. *)
Inductive source :=
| SrcObj (o : obj)
| SrcRef (l : loc)
| SrcUndefined.

Definition read_source (h : gmap loc obj) (src : source) : obj :=
  match src with
  | SrcObj o => o
  | SrcRef l => default ∅ (h !! l)
  | SrcUndefined => ∅
  end.

Definition assign_one (target : loc) (h : gmap loc obj) (src : source) : gmap loc obj :=
  alter (λ t, read_source h src ∪ t) target h.

Definition Object_assign (target : loc) (sources : list source) : M loc :=
  modify (set_heap (λ h, foldl (assign_one target) h sources));;
  ret target.

(** ** snowboy [Models]

    Modelled from the spec: the model collection handed to the detector,
    an external class.  It holds the references
    passed to [add], in order. *)
Definition new_Models : M loc :=
  s <- get;;
  modify (set_collections (λ cs, cs ++ [[]]));;
  ret (length (collections s)).

Definition Models_add (c : option loc) (m : loc) : M unit :=
  match c with
  | Some c => modify (set_collections (alter (λ l, l ++ [m]) c))
  | None => throw (TypeError "models is undefined")
  end.

(** ** [node-audiorecorder] *)

Definition status_after (c : rec_cmd) : rec_status :=
  match c with
  | CStart => RecRecording
  | CStop => RecStopped
  | CPause => RecPaused
  | CResume => RecRecording
  end.

Definition set_rec_state (st : rec_status) (r : AudioRecorder) : AudioRecorder :=
  {| rec_program := rec_program r; rec_sampleRate := rec_sampleRate r;
     rec_threshold := rec_threshold r; rec_logger := rec_logger r;
     rec_state := st; rec_pipes := rec_pipes r |}.

Definition set_rec_pipes (f : list loc → list loc) (r : AudioRecorder) : AudioRecorder :=
  {| rec_program := rec_program r; rec_sampleRate := rec_sampleRate r;
     rec_threshold := rec_threshold r; rec_logger := rec_logger r;
     rec_state := rec_state r; rec_pipes := f (rec_pipes r) |}.

Definition new_AudioRecorder (program : string) (sampleRate threshold : Z)
    (lg : option logger) : M loc :=
  s <- get;;
  let r := length (recorders s) in
  modify (set_recorders (λ rs, rs ++
    [{| rec_program := program; rec_sampleRate := sampleRate;
        rec_threshold := threshold; rec_logger := lg;
        rec_state := RecCreated; rec_pipes := [] |}]));;
  tell (ERecNew r);;
  ret r.

(** [audioRecorder.start()] and its siblings: the call goes through the
    module-level binding and returns the recorder itself. *)
Definition recorder_cmd (r : option loc) (c : rec_cmd) : M loc :=
  match r with
  | Some r =>
      modify (set_recorders (alter (set_rec_state (status_after c)) r));;
      tell (ERecCmd r c);;
      ret r
  | None => throw (TypeError "audioRecorder is undefined")
  end.

(** [.stream().pipe(detector)].  Node's [pipe] also puts an ['error']
    listener of its own on the destination, ahead of the destination's
    other listeners, and takes it off again when the destination is
    unpiped: the listener is there exactly while the destination is among
    the pipes, so it is represented by that membership and run by
    [pipe_onerror] below. *)
Definition stream_pipe (r : loc) (d : option loc) : M unit :=
  match d with
  | Some d =>
      modify (set_recorders (alter (set_rec_pipes (λ ps, ps ++ [d])) r));;
      tell (EPipe r d)
  | None => throw (TypeError "pipe: destination is undefined")
  end.

(** [.stream().unpipe(detector)]: the destination is detached; without a
    destination every pipe is. *)
Definition stream_unpipe (r : loc) (d : option loc) : M unit :=
  modify (set_recorders (alter (set_rec_pipes (λ ps,
    match d with
    | Some d => filter (λ x, x ≠ d) ps
    | None => []
    end)) r));;
  tell (EUnpipe r d).

(** ** snowboy [Detector] *)
Definition set_det_handlers (f : list handler → list handler) (d : Detector) : Detector :=
  {| det_options := det_options d; det_handlers := f (det_handlers d);
     det_resets := det_resets d |}.

Definition incr_det_resets (d : Detector) : Detector :=
  {| det_options := det_options d; det_handlers := det_handlers d;
     det_resets := S (det_resets d) |}.

Definition new_Detector (opts : option loc) : M loc :=
  s <- get;;
  let d := length (detectors s) in
  modify (set_detectors (λ ds, ds ++
    [{| det_options := opts; det_handlers := []; det_resets := 0 |}]));;
  tell (EDetNew d opts);;
  ret d.

Definition Detector_reset (d : option loc) : M unit :=
  match d with
  | Some d =>
      modify (set_detectors (alter incr_det_resets d));;
      tell (EDetReset d)
  | None => throw (TypeError "detector is undefined")
  end.

Definition Detector_on (d : option loc) (h : handler) : M unit :=
  match d with
  | Some d => modify (set_detectors (alter (set_det_handlers (λ hs, hs ++ [h])) d))
  | None => throw (TypeError "detector is undefined")
  end.

(** ** The logger

    Modelled from the spec: the optional logger collaborator of section 6,
    any object with [log(message)] and [warn(message)]. *)
Definition logger_log (l : logger) (msg : string) : M unit := tell (ELog l msg).
Definition logger_warn (l : logger) (msg : string) : M unit := tell (EWarn l msg).

(** ** The listener as an [EventEmitter] *)
Definition set_inst_logger (lg : option logger) (i : HotwordDetector) : HotwordDetector :=
  {| inst_logger := lg; inst_listeners := inst_listeners i |}.

Definition add_inst_listener (n : event_name) (f : nat) (i : HotwordDetector) : HotwordDetector :=
  {| inst_logger := inst_logger i; inst_listeners := inst_listeners i ++ [(n, f)] |}.

(** [super()] *)
Definition new_instance : M loc :=
  s <- get;;
  modify (set_instances (λ l, l ++ [{| inst_logger := None; inst_listeners := [] |}]));;
  ret (length (instances s)).

(** [this.logger = logger] *)
Definition set_logger (this : loc) (lg : option logger) : M unit :=
  modify (set_instances (alter (set_inst_logger lg) this)).

(** [this.logger] *)
Definition get_logger (this : loc) : M (option logger) :=
  s <- get;;
  match instances s !! this with
  | Some i => ret (inst_logger i)
  | None => throw (TypeError "this is undefined")
  end.

(** [listener.on(name, f)], inherited. *)
Definition on (this : loc) (n : event_name) (f : nat) : M unit :=
  modify (set_instances (alter (add_inst_listener n f) this)).

Definition has_listener (n : event_name) (i : HotwordDetector) : bool :=
  bool_decide (n ∈ (inst_listeners i).*1).

(** [this.emit(name, args...)], inherited from Node's [EventEmitter]: an
    ['error'] event that nobody listens to is raised as an exception by
    the emitter; every other emission returns. *)
Definition emit (this : loc) (e : event) : M unit :=
  s <- get;;
  match instances s !! this with
  | Some i =>
      match e with
      | EvError msg =>
          if has_listener NError i then tell (EEmit this e)
          else throw (UnhandledError msg)
      | _ => tell (EEmit this e)
      end
  | None => throw (TypeError "instance is undefined")
  end.

(** ** The module's own code *)

(** The closures of lines 35-56, as functions of the captured [instance]. *)
Definition on_error (instance : loc) : M unit :=
  let error := "HotwordDetector: Detector error." in
  lg <- get_logger instance;;
  (match lg with
   | Some l => logger_warn l error
   | None => ret tt
   end);;
  emit instance (EvError error).

Definition on_hotword (instance : loc) (index : Z) (hotword : string) (buf : buffer) : M unit :=
  lg <- get_logger instance;;
  (match lg with
   | Some l => logger_log l ("HotwordDetector; hotword detected; index: " +:+ pretty index
                               +:+ "; hotword: " +:+ hotword +:+ ".")
   | None => ret tt
   end);;
  emit instance (EvHotword index hotword buf).

Definition on_silence (instance : loc) : M unit :=
  emit instance EvSilence.

Definition on_sound (instance : loc) (buf : buffer) : M unit :=
  emit instance (EvSound buf).

(** A handler runs when the detector raises the signal it was registered
    for; handlers registered under another name are not called. *)
Definition call_handler (h : handler) (sig : signal) : M unit :=
  match h, sig with
  | OnError instance, SigError => on_error instance
  | OnHotword instance, SigHotword index hotword buf => on_hotword instance index hotword buf
  | OnSilence instance, SigSilence => on_silence instance
  | OnSound instance, SigSound buf => on_sound instance buf
  | _, _ => ret tt
  end.

Fixpoint call_handlers (hs : list handler) (sig : signal) : M unit :=
  match hs with
  | [] => ret tt
  | h :: hs' => call_handler h sig;; call_handlers hs' sig
  end.

(** The ['error'] listener that [pipe] put on the destination [d]: every
    stream that pipes into [d] unpipes it.  This is the stream's own doing,
    not a call of the module, and leaves no entry in the trace. *)
Definition drop_pipe (d : loc) (r : AudioRecorder) : AudioRecorder :=
  set_rec_pipes (filter (λ x, x ≠ d)) r.

Definition pipe_onerror (d : loc) : M unit :=
  modify (set_recorders (fmap (drop_pipe d))).

(** The detector [d] raises [sig]: for ['error'] the listeners of the
    pipes run first, as they were put ahead; then the handlers the module
    registered run in registration order. *)
Definition Detector_emit (d : loc) (sig : signal) : M unit :=
  (match sig with
   | SigError => pipe_onerror d
   | _ => ret tt
   end);;
  s <- get;;
  match detectors s !! d with
  | Some D => call_handlers (det_handlers D) sig
  | None => ret tt
  end.

(** Lines 27-57. *)
Definition setupDetector (instance : loc) : M unit :=
  s <- get;;
  (if truthy (detector s) then Detector_reset (detector s) else ret tt);;
  s <- get;;
  d <- new_Detector (detectorOptions s);;
  modify (set_detector (Some d));;
  s <- get;;
  Detector_on (detector s) (OnError instance);;
  Detector_on (detector s) (OnHotword instance);;
  Detector_on (detector s) (OnSilence instance);;
  Detector_on (detector s) (OnSound instance).

(** The loop of lines 80-82. *)
Fixpoint add_models (modelData : list source) : M unit :=
  match modelData with
  | [] => ret tt
  | x :: rest =>
      m <- Object_assign defaultModel [x];;
      s <- get;;
      Models_add (models s) m;;
      add_models rest
  end.

(** Lines 77-79: without model data the default model itself is the only
    element. *)
Definition or_default_model (modelData : option (list obj)) : list source :=
  match modelData with
  | Some l => if length l <? 1 then [SrcRef defaultModel] else SrcObj <$> l
  | None => [SrcRef defaultModel]
  end.

(** [recordingProgram || 'rec'] *)
Definition program_or_rec (recordingProgram : option string) : string :=
  match recordingProgram with
  | Some p => if decide (p = "") then "rec" else p
  | None => "rec"
  end.

(** Lines 68-100. *)
Definition constructor (modelData : option (list obj)) (detectorData : option obj)
    (recordingProgram : option string) (lg : option logger) : M loc :=
  this <- new_instance;;
  set_logger this lg;;
  c <- new_Models;;
  modify (set_models (Some c));;
  let modelData := or_default_model modelData in
  add_models modelData;;
  s <- get;;
  o <- Object_assign defaultDetector
         [from_option SrcObj SrcUndefined detectorData;
          SrcObj {[ "models" := from_option VModels VUndefined (models s) ]}];;
  modify (set_detectorOptions (Some o));;
  this_logger <- get_logger this;;
  r <- new_AudioRecorder (program_or_rec recordingProgram) 16000 0 this_logger;;
  modify (set_audioRecorder (Some r));;
  (match this_logger with
   | Some l => logger_log l "HotwordDetector initialized."
   | None => ret tt
   end);;
  ret this.

(** The common shape of the four lifecycle methods: an optional detector
    setup, a recorder command, a pipe or unpipe of the module-level
    detector, and a log line when the instance has a logger. *)
Definition log_if_logger (this : loc) (msg : string) : M unit :=
  lg <- get_logger this;;
  match lg with
  | Some l => logger_log l msg
  | None => ret tt
  end.

(** Lines 105-114. *)
Definition start (this : loc) : M loc :=
  setupDetector this;;
  s <- get;;
  r <- recorder_cmd (audioRecorder s) CStart;;
  s <- get;;
  stream_pipe r (detector s);;
  log_if_logger this "HotwordDetector: Started detecting.";;
  ret this.

(** Lines 119-127. *)
Definition stop (this : loc) : M loc :=
  s <- get;;
  r <- recorder_cmd (audioRecorder s) CStop;;
  s <- get;;
  stream_unpipe r (detector s);;
  log_if_logger this "HotwordDetector: Stopped detecting.";;
  ret this.

(** Lines 132-140. *)
Definition pause (this : loc) : M loc :=
  s <- get;;
  r <- recorder_cmd (audioRecorder s) CPause;;
  s <- get;;
  stream_unpipe r (detector s);;
  log_if_logger this "HotwordDetector: Paused detecting.";;
  ret this.

(** Lines 145-154. *)
Definition resume (this : loc) : M loc :=
  setupDetector this;;
  s <- get;;
  r <- recorder_cmd (audioRecorder s) CResume;;
  s <- get;;
  stream_pipe r (detector s);;
  log_if_logger this "HotwordDetector: Resumed detecting.";;
  ret this.

(** ** Reading traces *)

(** The effects an operation added to the trace of the state it ran in. *)
Definition added {A} (s : state) (r : result A) : list effect :=
  drop (length (trace s)) (trace (final_state r)).

Definition is_reset (e : effect) : bool :=
  match e with EDetReset _ => true | _ => false end.

Definition is_logging (e : effect) : bool :=
  match e with ELog _ _ | EWarn _ _ => true | _ => false end.

Definition pipe_target (e : effect) : option loc :=
  match e with EPipe _ d => Some d | _ => None end.

(** ** What [setupDetector] leaves behind *)
Definition fresh_detector (this : loc) (s : state) : Detector :=
  {| det_options := detectorOptions s;
     det_handlers := [OnError this; OnHotword this; OnSilence this; OnSound this];
     det_resets := 0 |}.

Definition reset_prior (s : state) : list Detector :=
  match detector s with
  | Some d => alter incr_det_resets d (detectors s)
  | None => detectors s
  end.

Definition reset_calls (s : state) : list effect :=
  match detector s with
  | Some d => [EDetReset d]
  | None => []
  end.

Definition after_setupDetector (this : loc) (s : state) : state :=
  {| heap := heap s; collections := collections s; recorders := recorders s;
     detectors := reset_prior s ++ [fresh_detector this s];
     instances := instances s;
     audioRecorder := audioRecorder s; models := models s;
     detector := Some (length (detectors s));
     detectorOptions := detectorOptions s;
     trace := trace s ++ reset_calls s
                ++ [EDetNew (length (detectors s)) (detectorOptions s)] |}.

Definition after_constructor (modelData : option (list obj)) (detectorData : option obj)
    (recordingProgram : option string) (lg : option logger) (s : state) : state :=
  let c := length (collections s) in
  let r := length (recorders s) in
  {| heap := foldl (assign_one defaultDetector)
               (foldl (assign_one defaultModel) (heap s) (or_default_model modelData))
               [from_option SrcObj SrcUndefined detectorData;
                SrcObj {[ "models" := VModels c ]}];
     collections := collections s
       ++ [replicate (length (or_default_model modelData)) defaultModel];
     recorders := recorders s
       ++ [{| rec_program := program_or_rec recordingProgram;
              rec_sampleRate := 16000; rec_threshold := 0; rec_logger := lg;
              rec_state := RecCreated; rec_pipes := [] |}];
     detectors := detectors s;
     instances := instances s ++ [{| inst_logger := lg; inst_listeners := [] |}];
     audioRecorder := Some r;
     models := Some c;
     detector := detector s;
     detectorOptions := Some defaultDetector;
     trace := trace s ++ [ERecNew r]
                ++ match lg with
                   | Some l => [ELog l "HotwordDetector initialized."]
                   | None => []
                   end |}.

(** The resolved model of a listener: the object its model collection
    holds at position [i], read through the heap. *)
Definition resolved_model (s : state) (c : loc) (i : nat) : option obj :=
  entries ← collections s !! c;
  m ← entries !! i;
  heap s !! m.

Definition field (o : option obj) (name : string) : option value :=
  o ≫= (.!! name).

(** Two listeners constructed one after the other in a freshly loaded
    module, each with a single one-field model override. *)
Definition first_override : obj := {[ "hotwords" := VStr "alexa" ]}.
Definition second_override : obj := {[ "file" := VStr "./jarvis.pmdl" ]}.

Definition after_first : state :=
  final_state (constructor (Some [first_override]) None None None init).
Definition after_second : state :=
  final_state (constructor (Some [second_override]) None None None after_first).
Definition after_second_empty : state :=
  final_state (constructor (Some []) None None None after_first).

(** ** The lifecycle methods, seen as one shape

    [start] and [resume] set up a detector and pipe into it; [stop] and
    [pause] unpipe.  The four differ only in the recorder command and the
    log line. *)
Definition lifecycle (setup : bool) (c : rec_cmd) (msg : string) (this : loc) : M loc :=
  (if setup then setupDetector this else ret tt);;
  s <- get;;
  r <- recorder_cmd (audioRecorder s) c;;
  s <- get;;
  (if setup then stream_pipe r (detector s) else stream_unpipe r (detector s));;
  log_if_logger this msg;;
  ret this.

Definition add_trace (l : list effect) (s : state) : state :=
  {| heap := heap s; collections := collections s; recorders := recorders s;
     detectors := detectors s; instances := instances s;
     audioRecorder := audioRecorder s; models := models s;
     detector := detector s; detectorOptions := detectorOptions s;
     trace := trace s ++ l |}.

Definition rewire (setup : bool) (d : option loc) (ps : list loc) : list loc :=
  match setup, d with
  | true, Some d => ps ++ [d]
  | true, None => ps
  | false, Some d => filter (λ x, x ≠ d) ps
  | false, None => []
  end.

Definition wire_effect (setup : bool) (r : loc) (d : option loc) : list effect :=
  match setup, d with
  | true, Some d => [EPipe r d]
  | true, None => []
  | false, _ => [EUnpipe r d]
  end.

(** The state after the recorder command and the pipe or unpipe, from the
    state [s1] the optional detector setup left. *)
Definition after_wiring (setup : bool) (c : rec_cmd) (r : loc) (s1 : state) : state :=
  {| heap := heap s1; collections := collections s1;
     recorders := alter (λ R, set_rec_pipes (rewire setup (detector s1))
                                (set_rec_state (status_after c) R)) r (recorders s1);
     detectors := detectors s1; instances := instances s1;
     audioRecorder := audioRecorder s1; models := models s1;
     detector := detector s1; detectorOptions := detectorOptions s1;
     trace := trace s1 ++ [ERecCmd r c] ++ wire_effect setup r (detector s1) |}.

Definition log_line (lg : option logger) (msg : string) : list effect :=
  match lg with
  | Some l => [ELog l msg]
  | None => []
  end.

Definition warn_line (lg : option logger) (msg : string) : list effect :=
  match lg with
  | Some l => [EWarn l msg]
  | None => []
  end.

Definition after_lifecycle (setup : bool) (c : rec_cmd) (msg : string) (this : loc)
    (s : state) : result loc :=
  let s1 := if setup then after_setupDetector this s else s in
  match audioRecorder s with
  | None => Throw (TypeError "audioRecorder is undefined") s1
  | Some r =>
      let s2 := after_wiring setup c r s1 in
      match instances s !! this with
      | None => Throw (TypeError "this is undefined") s2
      | Some inst => Ok this (add_trace (log_line (inst_logger inst) msg) s2)
      end
  end.

(** ** What a raised signal does, as a function of the listeners

    The effects a handler adds and the exception it ends with, if any;
    both depend on the listener objects only. *)
Definition error_message : string := "HotwordDetector: Detector error.".

Definition hotword_message (index : Z) (hotword : string) : string :=
  "HotwordDetector; hotword detected; index: " +:+ pretty index
    +:+ "; hotword: " +:+ hotword +:+ ".".

Definition handler_outcome (insts : list HotwordDetector) (h : handler) (sig : signal)
    : list effect * option exn :=
  match h, sig with
  | OnError i, SigError =>
      match insts !! i with
      | None => ([], Some (TypeError "this is undefined"))
      | Some inst =>
          let w := warn_line (inst_logger inst) error_message in
          if has_listener NError inst
          then (w ++ [EEmit i (EvError error_message)], None)
          else (w, Some (UnhandledError error_message))
      end
  | OnHotword i, SigHotword index hotword buf =>
      match insts !! i with
      | None => ([], Some (TypeError "this is undefined"))
      | Some inst =>
          (log_line (inst_logger inst) (hotword_message index hotword)
             ++ [EEmit i (EvHotword index hotword buf)], None)
      end
  | OnSilence i, SigSilence =>
      match insts !! i with
      | None => ([], Some (TypeError "instance is undefined"))
      | Some _ => ([EEmit i EvSilence], None)
      end
  | OnSound i, SigSound buf =>
      match insts !! i with
      | None => ([], Some (TypeError "instance is undefined"))
      | Some _ => ([EEmit i (EvSound buf)], None)
      end
  | _, _ => ([], None)
  end.

Fixpoint handlers_outcome (insts : list HotwordDetector) (hs : list handler) (sig : signal)
    : list effect * option exn :=
  match hs with
  | [] => ([], None)
  | h :: hs' =>
      match handler_outcome insts h sig with
      | (l, Some e) => (l, Some e)
      | (l, None) =>
          let '(l', r) := handlers_outcome insts hs' sig in (l ++ l', r)
      end
  end.

Definition outcome_result (o : list effect * option exn) (s : state) : result unit :=
  match o with
  | (l, None) => Ok tt (add_trace l s)
  | (l, Some e) => Throw e (add_trace l s)
  end.

(** The state the pipes' own ['error'] listeners leave: an error signal
    takes [d] out of every recorder's pipes, any other signal changes
    nothing. *)
Definition faulted (d : loc) (sig : signal) (s : state) : state :=
  match sig with
  | SigError => set_recorders (fmap (drop_pipe d)) s
  | _ => s
  end.

Definition signal_outcome (s : state) (d : loc) (sig : signal) : list effect * option exn :=
  match detectors s !! d with
  | Some D => handlers_outcome (instances s) (det_handlers D) sig
  | None => ([], None)
  end.

(** ** Reachable module states

    What a program using the module can do to its state: construct
    listeners, call their methods, subscribe to their events; and what the
    environment can do: have a detector raise a signal.  An operation that
    throws leaves the state it reached. *)
Inductive step : state → state → Prop :=
| step_constructor modelData detectorData recordingProgram lg s :
    step s (final_state (constructor modelData detectorData recordingProgram lg s))
| step_start this s : step s (final_state (start this s))
| step_stop this s : step s (final_state (stop this s))
| step_pause this s : step s (final_state (pause this s))
| step_resume this s : step s (final_state (resume this s))
| step_on this n f s : step s (final_state (on this n f s))
| step_signal d sig s : step s (final_state (Detector_emit d sig s)).

Definition reachable (s : state) : Prop := rtc step init s.

(** The detectors the recorder stream was piped into, in order. *)
Definition piped (t : list effect) : list loc := omap pipe_target t.

Record wf (s : state) : Prop := {
  wf_defaultModel : is_Some (heap s !! defaultModel);
  wf_defaultDetector : is_Some (heap s !! defaultDetector);
  wf_recorder : 0 < length (instances s) → is_Some (audioRecorder s);
  wf_piped_bound : ∀ d, d ∈ piped (trace s) → d < length (detectors s);
  wf_piped_NoDup : NoDup (piped (trace s))
}.

(** What [start] and [resume] owe to the detector: see C4. *)
Definition sets_up_fresh_detector (method : loc → M loc) : Prop :=
  ∀ this s,
    let s' := final_state (method this s) in
    let d := length (detectors s) in
    detectors s !! d = None ∧
    detector s' = Some d ∧
    detectors s' !! d = Some (fresh_detector this s) ∧
    (∀ d0 D0, detector s = Some d0 → detectors s !! d0 = Some D0 →
       d0 ≠ d ∧ detectors s' !! d0 = Some (incr_det_resets D0)) ∧
    ∃ rest, added s (method this s)
              = match detector s with
                | Some d0 => [EDetReset d0]
                | None => []
                end ++ [EDetNew d (detectorOptions s)] ++ rest.

(** ** Scenarios in a freshly loaded module *)

(** One listener without a logger, then started. *)
Definition listening : state := final_state (start 0 after_first).

(** Started, stopped, started again, paused and resumed. *)
Definition cycled : state :=
  final_state (resume 0 (final_state (pause 0 (final_state (start 0
    (final_state (stop 0 listening))))))).

(** Listening, then stopped. *)
Definition stopped : state := final_state (stop 0 listening).

(** One listener without a logger and with an ['error'] subscriber,
    before and after [start()]. *)
Definition subscribed : state := final_state (on 0 NError 7 after_first).
Definition subscribed_listening : state := final_state (start 0 subscribed).

(** What [stop] and [pause] do and do not sever: see C3. *)
Definition unpipes_but_keeps_forwarding (method : loc → M loc) : Prop :=
  ∀ this s,
    let s' := final_state (method this s) in
    detectors s' = detectors s ∧
    (∀ r d R', audioRecorder s = Some r → detector s = Some d →
       recorders s' !! r = Some R' → d ∉ rec_pipes R') ∧
    ∀ d sig,
      added s' (Detector_emit d sig s') = added s (Detector_emit d sig s) ∧
      (is_Ok (Detector_emit d sig s') ↔ is_Ok (Detector_emit d sig s)).

(** A second listener built after the first, with its own recording
    program, logger and detector options. *)
Definition two_listeners : state :=
  final_state (constructor None (Some {[ "audioGain" := VNum 2 ]}) (Some "sox")
                 (Some 5) after_first).

(** A lifecycle method does the same to the module's bindings and to the
    collaborators whichever listener it is called on: see C2. *)
Definition instance_blind (method : loc → M loc) : Prop :=
  ∀ i j s,
    let si := final_state (method i s) in
    let sj := final_state (method j s) in
    heap si = heap sj ∧ collections si = collections sj ∧
    recorders si = recorders sj ∧ instances si = instances sj ∧
    audioRecorder si = audioRecorder sj ∧ models si = models sj ∧
    detector si = detector sj ∧ detectorOptions si = detectorOptions sj.

(** ** Comparing runs with and without a logger *)
Definition erase_rec_logger (r : AudioRecorder) : AudioRecorder :=
  {| rec_program := rec_program r; rec_sampleRate := rec_sampleRate r;
     rec_threshold := rec_threshold r; rec_logger := None;
     rec_state := rec_state r; rec_pipes := rec_pipes r |}.

(** The state with every stored logger and every logger call forgotten. *)
Definition erase_logging (s : state) : state :=
  {| heap := heap s; collections := collections s;
     recorders := erase_rec_logger <$> recorders s;
     detectors := detectors s;
     instances := set_inst_logger None <$> instances s;
     audioRecorder := audioRecorder s; models := models s;
     detector := detector s; detectorOptions := detectorOptions s;
     trace := filter (λ e, is_logging e = false) (trace s) |}.

Definition same_up_to_logging (s1 s2 : state) : Prop :=
  erase_logging s1 = erase_logging s2.

(** The state in which listener [this] holds the logger [lg]. *)
Definition with_logger (this : loc) (lg : option logger) (s : state) : state :=
  set_instances (alter (set_inst_logger lg) this) s.

(** What a lifecycle method owes to a listener without logger: see C8. *)
Definition logger_free (method : loc → M loc) : Prop :=
  ∀ this s inst,
    reachable s → instances s !! this = Some inst → inst_logger inst = None →
    (∃ s', method this s = Ok this s') ∧
    filter (λ e, is_logging e = true) (added s (method this s)) = [] ∧
    ∀ lg, is_Ok (method this (with_logger this lg s)) ∧
          same_up_to_logging (final_state (method this (with_logger this lg s)))
                             (final_state (method this s)).

(** ** Further observations on the module *)

Definition is_emit (e : effect) : bool :=
  match e with EEmit _ _ => true | _ => false end.

Definition is_recorder_call (e : effect) : bool :=
  match e with ERecCmd _ _ | EPipe _ _ | EUnpipe _ _ => true | _ => false end.

(** A list of override objects merged over [base] in order, as repeated
    [Object.assign] onto one target does it: later overrides win. *)
Definition merged (base : obj) (overrides : list obj) : obj :=
  foldl (λ acc o, o ∪ acc) base overrides.


(** The four handlers [setupDetector] registers for a listener. *)
Definition four_handlers (this : loc) : list handler :=
  [OnError this; OnHotword this; OnSilence this; OnSound this].

(** Module bindings that hold a reference hold one to an existing object. *)
Record bound_ok (s : state) : Prop := {
  bound_recorder : ∀ r, audioRecorder s = Some r → is_Some (recorders s !! r);
  bound_models : ∀ c, models s = Some c → is_Some (collections s !! c);
  bound_detector : ∀ d, detector s = Some d → is_Some (detectors s !! d);
  bound_options : ∀ o, detectorOptions s = Some o →
                    o = defaultDetector ∧ is_Some (heap s !! o)
}.

(** The reset discipline: the bound detector is the newest one and was
    never reset; every other detector was reset exactly once. *)
Definition reset_discipline (s : state) : Prop :=
  match detector s with
  | None => detectors s = []
  | Some n =>
      length (detectors s) = S n ∧
      ∀ d D, detectors s !! d = Some D →
        det_resets D = if decide (d = n) then 0 else 1
  end.

(** Every detector carries the four handlers of one listener. *)
Definition handlers_ok (s : state) : Prop :=
  ∀ d D, detectors s !! d = Some D → ∃ this, det_handlers D = four_handlers this.


(** ** Pipes and detectors *)

(** Every detector in the pipes of a recorder exists. *)
Definition pipes_bound (s : state) : Prop :=
  ∀ r R d, recorders s !! r = Some R → d ∈ rec_pipes R → d < length (detectors s).

(** A [stop] or [pause] that directly follows the [start] or [resume]
    which set the detector up leaves that detector in no recorder's pipes:
    see C3. *)
Definition disconnects (connect disconnect : loc → M loc) : Prop :=
  ∀ this this' that s s1,
    reachable s → connect this s = Ok this' s1 →
    ∀ r R, recorders (final_state (disconnect that s1)) !! r = Some R →
      length (detectors s) ∉ rec_pipes R.

(** The first listener started, a second listener built, then the first
    stopped. *)
Definition rebound_stopped : state :=
  final_state (stop 0 (final_state (constructor None None None None listening))).

(** Reduction of projections out of updated states, and nothing else. *)
Ltac proj :=
  cbn [heap collections recorders detectors instances audioRecorder models
       detector detectorOptions trace set_heap set_collections set_recorders
       set_detectors set_instances set_audioRecorder set_models set_detector
       set_detectorOptions emit_effect final_state is_Ok truthy
       inst_logger inst_listeners set_inst_logger add_inst_listener
       add_trace after_wiring log_line wire_effect erase_logging with_logger].

Tactic Notation "proj" "in" hyp(H) :=
  cbn [heap collections recorders detectors instances audioRecorder models
       detector detectorOptions trace set_heap set_collections set_recorders
       set_detectors set_instances set_audioRecorder set_models set_detector
       set_detectorOptions emit_effect final_state is_Ok truthy
       inst_logger inst_listeners set_inst_logger add_inst_listener
       add_trace after_wiring log_line wire_effect erase_logging with_logger] in H.

(** Stepping a computation through its binds. *)
Lemma bind_Ok {A B} (m : M A) (k : A → M B) s a s' :
  m s = Ok a s' → bind m k s = k a s'.
Proof. unfold bind. by intros ->. Qed.

Lemma bind_assoc {A B C} (m : M A) (k1 : A → M B) (k2 : B → M C) s :
  bind (bind m k1) k2 s = bind m (λ a, bind (k1 a) k2) s.
Proof. unfold bind. by destruct (m s). Qed.

Lemma bind_get {B} (k : state → M B) s : bind get k s = k s s.
Proof. reflexivity. Qed.

Lemma bind_modify {B} f (k : unit → M B) s : bind (modify f) k s = k tt (f s).
Proof. reflexivity. Qed.

Lemma bind_ret {A B} (a : A) (k : A → M B) s : bind (ret a) k s = k a s.
Proof. reflexivity. Qed.

Lemma bind_throw {A B} e (k : A → M B) s : bind (throw e) k s = Throw e s.
Proof. reflexivity. Qed.

Ltac mstep :=
  repeat first
    [ rewrite bind_assoc | rewrite bind_get | rewrite bind_modify
    | rewrite bind_ret | rewrite bind_throw | progress proj ].

Ltac run :=
  unfold start, stop, pause, resume, setupDetector, log_if_logger, get_logger,
    recorder_cmd, stream_pipe, stream_unpipe, new_Detector, Detector_reset,
    Detector_on, logger_log, logger_warn, tell, modify, get, ret, throw, bind;
  proj.

Lemma added_app {A} s (r : result A) l :
  trace (final_state r) = trace s ++ l → added s r = l.
Proof. unfold added. intros ->. by rewrite drop_app_length. Qed.

Lemma alter_snoc {A} (f : A → A) (l : list A) (x : A) :
  alter f (length l) (l ++ [x]) = l ++ [f x].
Proof.
  replace (length l) with (length l + 0) by lia.
  by rewrite alter_app_r.
Qed.

Lemma state_ext (s1 s2 : state) :
  heap s1 = heap s2 → collections s1 = collections s2 →
  recorders s1 = recorders s2 → detectors s1 = detectors s2 →
  instances s1 = instances s2 → audioRecorder s1 = audioRecorder s2 →
  models s1 = models s2 → detector s1 = detector s2 →
  detectorOptions s1 = detectorOptions s2 → trace s1 = trace s2 →
  s1 = s2.
Proof. destruct s1, s2; cbn; intros; by subst. Qed.

Ltac state_eq := apply state_ext; proj.

Lemma alter_twice {A} (f g : A → A) (i : nat) (l : list A) :
  alter f i (alter g i l) = alter (f ∘ g) i l.
Proof. revert i. induction l as [|x l IH]; intros [|i]; cbn; by rewrite ?IH. Qed.

Lemma setupDetector_eq this s :
  setupDetector this s = Ok tt (after_setupDetector this s).
Proof.
  run. unfold after_setupDetector, reset_prior, reset_calls, fresh_detector.
  destruct (detector s) as [d|]; proj; f_equal; state_eq;
    rewrite ?alter_snoc, ?length_alter, <- ?app_assoc; reflexivity.
Qed.

(** ** What the constructor leaves behind *)
Lemma add_models_eq srcs s c :
  models s = Some c →
  add_models srcs s =
    Ok tt (set_collections (alter (λ l, l ++ replicate (length srcs) defaultModel) c)
             (set_heap (λ h, foldl (assign_one defaultModel) h srcs) s)).
Proof.
  revert s. induction srcs as [|x rest IH]; intros s Hc.
  - cbn [add_models length replicate foldl]. unfold ret. f_equal.
    state_eq; try reflexivity.
    symmetry. apply list_alter_id. intros l. apply app_nil_r.
  - cbn [add_models]. unfold Object_assign, Models_add, modify, get, ret, bind.
    proj. rewrite Hc. rewrite IH by done.
    f_equal. state_eq; try reflexivity.
    rewrite alter_twice. apply list_alter_ext; [|done].
    intros l _. cbn [length replicate compose]. by rewrite <- app_assoc.
Qed.

Lemma constructor_eq modelData detectorData recordingProgram lg s :
  constructor modelData detectorData recordingProgram lg s
    = Ok (length (instances s))
         (after_constructor modelData detectorData recordingProgram lg s).
Proof.
  unfold constructor, new_instance, set_logger, new_Models.
  mstep.
  erewrite bind_Ok; [|by apply (add_models_eq _ _ (length (collections s)))].
  unfold Object_assign, get_logger, new_AudioRecorder, logger_log, tell.
  mstep.
  rewrite !alter_snoc. rewrite list_lookup_middle by done.
  mstep.
  unfold after_constructor.
  destruct lg as [l|]; mstep; unfold ret; f_equal; state_eq; rewrite ?alter_snoc, <- ?app_assoc; try reflexivity.
Qed.

(** *** The model collection of a construction *)
Lemma or_default_model_length modelData :
  length (or_default_model modelData) = max 1 (length (default [] modelData)).
Proof.
  destruct modelData as [[|o l]|]; simpl; rewrite ?length_fmap; lia.
Qed.

(** Every construction binds [models] to a new collection with
    [max 1 |M|] entries, each of them the shared default object. *)
Lemma constructor_collection modelData detectorData recordingProgram lg s :
  let s' := final_state (constructor modelData detectorData recordingProgram lg s) in
  models s' = Some (length (collections s)) ∧
  collections s' !! length (collections s)
    = Some (replicate (max 1 (length (default [] modelData))) defaultModel).
Proof.
  rewrite constructor_eq. unfold after_constructor. proj. split; [done|].
  rewrite list_lookup_middle by done. by rewrite or_default_model_length.
Qed.

(** In a freshly loaded module an empty model list resolves to one entry
    that holds the built-in default. *)
Lemma constructor_empty_fresh_module detectorData recordingProgram lg :
  let s' := final_state (constructor (Some []) detectorData recordingProgram lg init) in
  collections s' !! 0 = Some [defaultModel] ∧
  resolved_model s' 0 0 = Some builtin_defaultModel.
Proof.
  rewrite constructor_eq. split; [reflexivity|].
  unfold resolved_model, after_constructor. proj.
  cbn [or_default_model length Nat.ltb Nat.leb replicate app init collections
       lookup list_lookup mbind option_bind foldl].
  unfold assign_one at 1 2.
  rewrite !lookup_alter_ne by done.
  unfold assign_one. rewrite lookup_alter_eq.
  cbn [init heap read_source]. rewrite lookup_insert_eq. cbn [default fmap option_fmap option_map].
  by rewrite (idemp_L (∪) builtin_defaultModel).
Qed.

(** Assigning onto one of the default objects leaves the other alone. *)
Lemma assign_other target other h srcs :
  target ≠ other →
  foldl (assign_one target) h srcs !! other = h !! other.
Proof.
  intros Hne. revert h. induction srcs as [|x rest IH]; intros h; [done|].
  cbn [foldl]. rewrite IH. unfold assign_one. by rewrite lookup_alter_ne.
Qed.

Lemma assign_one_lookup target h src :
  assign_one target h src !! target = (λ t, read_source h src ∪ t) <$> h !! target.
Proof. unfold assign_one. apply (lookup_alter_eq (M:=gmap nat)). Qed.

(** The merge of line 81 is a write to the shared default object: a
    construction with one override [o] leaves [o] merged over whatever the
    default held. *)
Lemma constructor_writes_default o detectorData recordingProgram lg s m :
  heap s !! defaultModel = Some m →
  heap (final_state (constructor (Some [o]) detectorData recordingProgram lg s))
    !! defaultModel = Some (o ∪ m).
Proof.
  intros Hm. rewrite constructor_eq. unfold after_constructor. proj.
  rewrite assign_other by done.
  cbn [or_default_model length Nat.ltb Nat.leb fmap list_fmap foldl].
  rewrite assign_one_lookup, Hm. reflexivity.
Qed.

(** ** Claims about construction *)

(** C1. Code against the claim: the merge of line 81 writes each override
    into the shared default object.  After a first listener was built with
    the override [hotwords: 'alexa'], a second listener built with the
    override [file: './jarvis.pmdl'] resolves its model to an object whose
    [hotwords] field is the first listener's ['alexa'] and not the built-in
    ['snowboy']; the default object itself no longer holds the built-in
    values, and the first listener's resolved model has changed as well. *)
Theorem C1_override_leaks_into_default :
  field (Some builtin_defaultModel) "hotwords" = Some (VStr "snowboy") ∧
  models after_second = Some 1 ∧
  field (resolved_model after_second 1 0) "file" = Some (VStr "./jarvis.pmdl") ∧
  field (resolved_model after_second 1 0) "hotwords" = Some (VStr "alexa") ∧
  field (heap after_first !! defaultModel) "hotwords" = Some (VStr "alexa") ∧
  field (resolved_model after_second 0 0) "file" = Some (VStr "./jarvis.pmdl").
Proof. repeat apply conj; vm_compute; reflexivity. Qed.

(** C5. Code against the claim, through the defect of C1: once an earlier
    listener was built with the override [hotwords: 'alexa'], a listener
    built with an empty model list gets one resolved entry, the shared
    default object, whose [hotwords] field is ['alexa']; the entry differs
    from the built-in default model. *)
Theorem C5_empty_list_after_override :
  models after_second_empty = Some 1 ∧
  collections after_second_empty !! 1 = Some [defaultModel] ∧
  field (resolved_model after_second_empty 1 0) "hotwords" = Some (VStr "alexa") ∧
  resolved_model after_second_empty 1 0 ≠ Some builtin_defaultModel.
Proof.
  repeat apply conj; try (vm_compute; reflexivity).
  intros H. apply (f_equal (λ o, field o "hotwords")) in H.
  vm_compute in H. discriminate.
Qed.

(** C9. Whatever override object the caller passes, a construction leaves
    the [models] field of the resolved detector options bound to the model
    collection this very construction created (a collection that did not
    exist before): the literal [{ models: models }] is the last source of
    the merge. *)
Theorem C9_models_field_is_own_collection
    modelData detectorData recordingProgram lg s
    (Hdefault : is_Some (heap s !! defaultDetector)) :
  let s' := final_state (constructor modelData detectorData recordingProgram lg s) in
  let c := length (collections s) in
  collections s !! c = None ∧
  is_Some (collections s' !! c) ∧
  models s' = Some c ∧
  detectorOptions s' = Some defaultDetector ∧
  field (heap s' !! defaultDetector) "models" = Some (VModels c).
Proof.
  destruct Hdefault as [o Ho].
  rewrite constructor_eq. unfold after_constructor. proj.
  split; [by apply lookup_ge_None|].
  split; [rewrite list_lookup_middle by done; eauto|].
  split; [done|]. split; [done|].
  cbn [foldl]. rewrite !assign_one_lookup.
  rewrite assign_other by done. rewrite Ho.
  cbn [fmap option_fmap option_map field mbind option_bind read_source].
  apply lookup_union_Some_l. apply lookup_singleton_eq.
Qed.

Lemma C9_models_field_is_own_collection_witness :
  is_Some (heap init !! defaultDetector) ∧
  field (heap (final_state
           (constructor None (Some {[ "models" := VStr "mine" ]}) None None init))
         !! defaultDetector) "models" = Some (VModels 0).
Proof.
  assert (H : is_Some (heap init !! defaultDetector)) by (vm_compute; eauto).
  split; [exact H|].
  exact (proj2 (proj2 (proj2 (proj2
    (C9_models_field_is_own_collection None (Some {[ "models" := VStr "mine" ]})
       None None init H))))).
Defined.

(** ** The lifecycle methods *)

Lemma start_lifecycle this s :
  start this s = lifecycle true CStart "HotwordDetector: Started detecting." this s.
Proof. reflexivity. Qed.

Lemma resume_lifecycle this s :
  resume this s = lifecycle true CResume "HotwordDetector: Resumed detecting." this s.
Proof. reflexivity. Qed.

Lemma stop_lifecycle this s :
  stop this s = lifecycle false CStop "HotwordDetector: Stopped detecting." this s.
Proof. reflexivity. Qed.

Lemma pause_lifecycle this s :
  pause this s = lifecycle false CPause "HotwordDetector: Paused detecting." this s.
Proof. reflexivity. Qed.

Lemma add_trace_nil s : add_trace [] s = s.
Proof. unfold add_trace. state_eq; try done. apply app_nil_r. Qed.

Lemma lifecycle_eq setup c msg this s :
  lifecycle setup c msg this s = after_lifecycle setup c msg this s.
Proof.
  unfold lifecycle, after_lifecycle.
  destruct setup.
  - erewrite bind_Ok by apply setupDetector_eq.
    unfold recorder_cmd, stream_pipe, log_if_logger, get_logger, logger_log, tell.
    mstep. unfold after_setupDetector at 1. proj.
    destruct (audioRecorder s) as [r|]; [|done].
    mstep. unfold after_setupDetector at 1 2 3. proj. mstep.
    unfold after_setupDetector at 1. proj.
    destruct (instances s !! this) as [inst|]; mstep.
    + destruct (inst_logger inst) as [l|]; mstep; unfold ret; f_equal;
        state_eq; rewrite ?alter_twice, <- ?app_assoc, ?app_nil_r; try reflexivity.
    + unfold throw. f_equal. state_eq; rewrite ?alter_twice, <- ?app_assoc; reflexivity.
  - unfold recorder_cmd, stream_unpipe, log_if_logger, get_logger, logger_log, tell.
    mstep.
    destruct (audioRecorder s) as [r|]; [|done].
    mstep.
    destruct (instances s !! this) as [inst|]; mstep.
    + destruct (inst_logger inst) as [l|]; mstep; unfold ret; f_equal;
        state_eq; rewrite ?alter_twice, <- ?app_assoc, ?app_nil_r; try reflexivity.
    + unfold throw. f_equal. state_eq; rewrite ?alter_twice, <- ?app_assoc; try reflexivity.
Qed.

(** ** Raised signals *)

Lemma emit_effect_add_trace e s : emit_effect e s = add_trace [e] s.
Proof. reflexivity. Qed.

Lemma add_trace_app l1 l2 s : add_trace l2 (add_trace l1 s) = add_trace (l1 ++ l2) s.
Proof. unfold add_trace. state_eq; try done. by rewrite app_assoc. Qed.

Lemma call_handler_eq h sig s :
  call_handler h sig s = outcome_result (handler_outcome (instances s) h sig) s.
Proof.
  destruct h as [i|i|i|i], sig as [|index hotword buf| |buf];
    cbn [call_handler handler_outcome]; unfold ret, outcome_result;
    rewrite ?add_trace_nil; try reflexivity.
  - unfold on_error, get_logger, logger_warn, emit, tell. mstep.
    destruct (instances s !! i) as [inst|] eqn:E; mstep;
      [|by rewrite add_trace_nil].
    destruct (inst_logger inst) as [l|]; mstep; rewrite E;
      destruct (has_listener NError inst); mstep; unfold modify, throw;
      rewrite ?emit_effect_add_trace, ?add_trace_app, ?add_trace_nil; reflexivity.
  - unfold on_hotword, get_logger, logger_log, emit, tell. mstep.
    destruct (instances s !! i) as [inst|] eqn:E; mstep;
      [|by rewrite add_trace_nil].
    destruct (inst_logger inst) as [l|]; mstep; rewrite E; mstep; unfold modify;
      rewrite ?emit_effect_add_trace, ?add_trace_app, ?add_trace_nil; reflexivity.
  - unfold on_silence, emit, tell. mstep.
    destruct (instances s !! i) as [inst|] eqn:E; mstep; unfold modify, throw;
      rewrite ?emit_effect_add_trace, ?add_trace_nil; reflexivity.
  - unfold on_sound, emit, tell. mstep.
    destruct (instances s !! i) as [inst|] eqn:E; mstep; unfold modify, throw;
      rewrite ?emit_effect_add_trace, ?add_trace_nil; reflexivity.
Qed.

Lemma call_handlers_eq hs sig s :
  call_handlers hs sig s = outcome_result (handlers_outcome (instances s) hs sig) s.
Proof.
  revert s. induction hs as [|h hs IH]; intros s.
  - cbn. unfold ret. by rewrite add_trace_nil.
  - cbn [call_handlers handlers_outcome]. unfold bind.
    rewrite call_handler_eq.
    destruct (handler_outcome (instances s) h sig) as [l [e|]]; [done|].
    cbn [outcome_result]. rewrite IH. proj.
    destruct (handlers_outcome (instances s) hs sig) as [l' [e|]];
      cbn [outcome_result]; by rewrite add_trace_app.
Qed.

Lemma Detector_emit_eq d sig s :
  Detector_emit d sig s = outcome_result (signal_outcome s d sig) (faulted d sig s).
Proof.
  unfold Detector_emit, signal_outcome, pipe_onerror.
  destruct sig; mstep; cbn [faulted];
    (destruct (detectors s !! d) as [D|];
     [ rewrite call_handlers_eq; reflexivity
     | unfold ret; cbn [outcome_result]; by rewrite add_trace_nil ]).
Qed.

Lemma faulted_trace d sig s : trace (faulted d sig s) = trace s.
Proof. by destruct sig. Qed.

(** The fields of the state a lifecycle method ends in, thrown or not. *)
Lemma lifecycle_fields setup c msg this s :
  let s' := final_state (lifecycle setup c msg this s) in
  let s1 := if setup then after_setupDetector this s else s in
  heap s' = heap s ∧ collections s' = collections s ∧
  instances s' = instances s ∧ audioRecorder s' = audioRecorder s ∧
  models s' = models s ∧ detectorOptions s' = detectorOptions s ∧
  detectors s' = detectors s1 ∧ detector s' = detector s1 ∧
  recorders s' = match audioRecorder s with
                 | Some r => recorders (after_wiring setup c r s1)
                 | None => recorders s
                 end ∧
  trace s' = trace s1 ++
    match audioRecorder s with
    | Some r => [ERecCmd r c] ++ wire_effect setup r (detector s1) ++
        match instances s !! this with
        | Some inst => log_line (inst_logger inst) msg
        | None => []
        end
    | None => []
    end.
Proof.
  rewrite lifecycle_eq. unfold after_lifecycle.
  destruct setup, (audioRecorder s) as [r|] eqn:E; proj;
    try destruct (instances s !! this) as [inst|]; proj;
    unfold after_setupDetector; proj;
    rewrite <- ?app_assoc, ?app_nil_r, ?E; repeat split; reflexivity.
Qed.

(** ** Invariants of reachable states *)

Lemma piped_app l1 l2 : piped (l1 ++ l2) = piped l1 ++ piped l2.
Proof. apply omap_app. Qed.

Lemma piped_log_line lg msg : piped (log_line lg msg) = [].
Proof. by destruct lg. Qed.

Lemma piped_reset_calls s : piped (reset_calls s) = [].
Proof. unfold reset_calls. by destruct (detector s). Qed.

Lemma handler_outcome_piped insts h sig : piped (handler_outcome insts h sig).1 = [].
Proof.
  destruct h as [i|i|i|i], sig as [|index hotword buf| |buf];
    cbn [handler_outcome fst]; try done;
    destruct (insts !! i) as [inst|]; cbn [fst]; try done.
  - destruct (inst_logger inst), (has_listener NError inst); done.
  - rewrite piped_app, piped_log_line. done.
Qed.

Lemma handlers_outcome_piped insts hs sig : piped (handlers_outcome insts hs sig).1 = [].
Proof.
  induction hs as [|h hs IH]; [done|].
  cbn [handlers_outcome].
  pose proof (handler_outcome_piped insts h sig) as Hh.
  destruct (handler_outcome insts h sig) as [l [e|]]; [done|].
  destruct (handlers_outcome insts hs sig) as [l' r].
  cbn [fst] in *. by rewrite piped_app, Hh, IH.
Qed.

Lemma signal_outcome_piped s d sig : piped (signal_outcome s d sig).1 = [].
Proof.
  unfold signal_outcome. destruct (detectors s !! d); [|done].
  apply handlers_outcome_piped.
Qed.

Lemma final_state_outcome o s : final_state (outcome_result o s) = add_trace o.1 s.
Proof. by destruct o as [l [e|]]. Qed.

Lemma assign_is_Some target l h srcs :
  is_Some (h !! l) → is_Some (foldl (assign_one target) h srcs !! l).
Proof.
  revert h. induction srcs as [|x rest IH]; intros h Hl; [done|].
  cbn [foldl]. apply IH.
  destruct (decide (target = l)) as [->|Hne].
  - rewrite assign_one_lookup. by apply fmap_is_Some.
  - unfold assign_one. by rewrite lookup_alter_ne.
Qed.

Lemma reset_prior_length s : length (reset_prior s) = length (detectors s).
Proof. unfold reset_prior. destruct (detector s); [apply length_alter|done]. Qed.

Lemma wf_init : wf init.
Proof.
  split; cbn [init heap instances trace length piped omap detectors].
  - unfold defaultModel. rewrite lookup_insert_eq. eauto.
  - unfold defaultModel, defaultDetector.
    rewrite lookup_insert_ne, lookup_insert_eq by done. eauto.
  - lia.
  - intros d Hd. by apply elem_of_nil in Hd.
  - constructor.
Qed.

Lemma wf_constructor modelData detectorData recordingProgram lg s :
  wf s → wf (final_state (constructor modelData detectorData recordingProgram lg s)).
Proof.
  intros [H1 H2 H3 H4 H5]. rewrite constructor_eq. unfold after_constructor.
  assert (Hp : piped (trace s ++ [ERecNew (length (recorders s))]
                 ++ match lg with
                    | Some l => [ELog l "HotwordDetector initialized."]
                    | None => []
                    end) = piped (trace s)).
  { rewrite !piped_app. destruct lg; cbn; by rewrite app_nil_r. }
  split; proj; rewrite ?Hp; eauto using assign_is_Some.
Qed.

Lemma wf_lifecycle setup c msg this s :
  wf s → wf (final_state (lifecycle setup c msg this s)).
Proof.
  intros [H1 H2 H3 H4 H5].
  destruct (lifecycle_fields setup c msg this s)
    as (Eh & _ & Ei & Ea & _ & _ & Ed & _ & _ & Et).
  assert (Hp : piped (trace (final_state (lifecycle setup c msg this s)))
               = piped (trace s) ∨
               (setup = true ∧
                piped (trace (final_state (lifecycle setup c msg this s)))
                = piped (trace s) ++ [length (detectors s)])).
  { rewrite Et. destruct setup; unfold after_setupDetector; proj.
    - rewrite !piped_app, piped_reset_calls.
      destruct (audioRecorder s) as [r|]; [|left; cbn; by rewrite !app_nil_r].
      right. split; [done|]. rewrite !piped_app, app_nil_l.
      destruct (instances s !! this) as [inst|];
        rewrite ?piped_log_line; cbn; by rewrite ?app_nil_r.
    - left. rewrite piped_app.
      destruct (audioRecorder s) as [r|]; [|cbn; by rewrite !app_nil_r].
      rewrite !piped_app.
      destruct (instances s !! this) as [inst|];
        rewrite ?piped_log_line; cbn; by rewrite ?app_nil_r. }
  assert (Hl : length (detectors s)
               ≤ length (detectors (final_state (lifecycle setup c msg this s)))).
  { rewrite Ed. destruct setup; [|done]. unfold after_setupDetector. proj.
    rewrite length_app, reset_prior_length. lia. }
  split; rewrite ?Eh, ?Ei, ?Ea; try done.
  - intros d Hd. destruct Hp as [Hp|[-> Hp]]; rewrite Hp in Hd.
    + specialize (H4 d Hd). lia.
    + rewrite Ed. unfold after_setupDetector. proj.
      rewrite length_app, reset_prior_length. cbn [length].
      apply elem_of_app in Hd as [Hd|Hd%list_elem_of_singleton].
      * specialize (H4 d Hd). lia.
      * lia.
  - destruct Hp as [Hp|[-> Hp]]; rewrite Hp; [done|].
    apply NoDup_app. split; [done|]. split; [|apply NoDup_singleton].
    intros d Hd Hd'%list_elem_of_singleton. specialize (H4 d Hd). lia.
Qed.

Lemma wf_on this n f s : wf s → wf (final_state (on this n f s)).
Proof.
  intros [H1 H2 H3 H4 H5]. unfold on, modify. proj.
  split; proj; try done. by rewrite length_alter.
Qed.

Lemma wf_signal d sig s : wf s → wf (final_state (Detector_emit d sig s)).
Proof.
  intros [H1 H2 H3 H4 H5]. rewrite Detector_emit_eq, final_state_outcome.
  destruct sig; cbn [faulted];
    split; proj; rewrite ?piped_app, ?signal_outcome_piped, ?app_nil_r; done.
Qed.

Lemma wf_step s s' : wf s → step s s' → wf s'.
Proof.
  intros Hwf Hstep. destruct Hstep.
  - by apply wf_constructor.
  - rewrite start_lifecycle. by apply wf_lifecycle.
  - rewrite stop_lifecycle. by apply wf_lifecycle.
  - rewrite pause_lifecycle. by apply wf_lifecycle.
  - rewrite resume_lifecycle. by apply wf_lifecycle.
  - by apply wf_on.
  - by apply wf_signal.
Qed.

Lemma reachable_wf s : reachable s → wf s.
Proof.
  unfold reachable. intros H. revert s H. apply rtc_ind_r.
  - apply wf_init.
  - intros s0 s1 _ Hstep IH. by eapply wf_step.
Qed.

(** ** Claims about the detector life cycle *)

(** C10. [setupDetector] calls [reset] exactly on the detector the module
    binding already holds, and on nothing when the binding is still
    undefined; in both cases the setup returns normally.  In particular the
    first [start()] after the first construction in a freshly loaded module
    finds no detector, makes no [reset] call, and completes. *)
Theorem C10_reset_only_on_prior_detector :
  (∀ this s,
     is_Ok (setupDetector this s) ∧
     filter (λ e, is_reset e = true) (added s (setupDetector this s))
       = match detector s with
         | Some d => [EDetReset d]
         | None => []
         end) ∧
  (∀ modelData detectorData recordingProgram lg,
     ∃ this s1,
       constructor modelData detectorData recordingProgram lg init = Ok this s1 ∧
       detector s1 = None ∧
       is_Ok (start this s1) ∧
       filter (λ e, is_reset e = true) (trace (final_state (start this s1))) = []).
Proof.
  split.
  - intros this s. rewrite setupDetector_eq. split; [done|].
    erewrite added_app by (unfold after_setupDetector; proj; reflexivity).
    unfold reset_calls. by destruct (detector s).
  - intros modelData detectorData recordingProgram lg.
    eexists _, _. split; [apply constructor_eq|].
    split; [done|].
    rewrite start_lifecycle, lifecycle_eq.
    unfold after_lifecycle, after_constructor. proj.
    cbn [init instances app lookup list_lookup length].
    unfold after_setupDetector, reset_calls. proj.
    split; [done|]. cbn [init trace detector app].
    by destruct lg.
Qed.

Lemma lifecycle_sets_up c msg : sets_up_fresh_detector (lifecycle true c msg).
Proof.
  intros this s s' d.
  destruct (lifecycle_fields true c msg this s)
    as (_ & _ & _ & _ & _ & _ & Ed & Edet & _ & Et).
  fold s' in Ed, Edet, Et. unfold after_setupDetector in Ed, Edet, Et.
  proj in Ed. proj in Edet. proj in Et.
  split; [by apply lookup_ge_None|].
  split; [done|].
  split.
  { rewrite Ed. apply list_lookup_middle. by rewrite reset_prior_length. }
  split.
  { intros d0 D0 Hd0 HD0.
    assert (d0 < length (detectors s)) by (by eapply lookup_lt_Some).
    split; [unfold d; lia|].
    rewrite Ed, lookup_app_l by (rewrite reset_prior_length; lia).
    unfold reset_prior. rewrite Hd0, list_lookup_alter_eq, HD0. done. }
  eexists. apply added_app. fold s'. rewrite Et.
  unfold reset_calls. rewrite <- !app_assoc. reflexivity.
Qed.

(** C4. Every [start()] and every [resume()] builds a detector that did
    not exist before, from the stored detector options, and binds the
    module to it; a detector the module was bound to is reset first, and
    the reset precedes the creation of its replacement.  Over any history
    of the module no detector is piped into twice. *)
Theorem C4_fresh_detector_per_start :
  sets_up_fresh_detector start ∧
  sets_up_fresh_detector resume ∧
  ∀ s, reachable s → NoDup (piped (trace s)).
Proof.
  split; [|split].
  - intros this s. rewrite start_lifecycle. apply lifecycle_sets_up.
  - intros this s. rewrite resume_lifecycle. apply lifecycle_sets_up.
  - intros s Hs. by apply reachable_wf.
Qed.

Lemma reachable_step s s' : reachable s → step s s' → reachable s'.
Proof. unfold reachable. intros H1 H2. by eapply rtc_r. Qed.

Lemma reachable_cycled : reachable cycled.
Proof.
  unfold cycled, listening, after_first.
  eapply reachable_step; [|apply step_resume].
  eapply reachable_step; [|apply step_pause].
  eapply reachable_step; [|apply step_start].
  eapply reachable_step; [|apply step_stop].
  eapply reachable_step; [|apply step_start].
  eapply reachable_step; [|apply step_constructor].
  apply rtc_refl.
Qed.

Lemma C4_fresh_detector_per_start_witness :
  reachable cycled ∧ piped (trace cycled) = [0; 1; 2] ∧ NoDup (piped (trace cycled)).
Proof.
  split; [apply reachable_cycled|].
  split; [vm_compute; reflexivity|].
  exact (proj2 (proj2 C4_fresh_detector_per_start) cycled reachable_cycled).
Defined.

(** C6. After a [start()] that returned, a hotword signal of the active
    detector with arguments [(index, label, buffer)] makes the listener
    emit exactly one event, [hotword] with the same three arguments; the
    only other effect is the log line when the listener has a logger. *)
Theorem C6_hotword_forwarded_unchanged this this' s s1 index label buf
    (Hstart : start this s = Ok this' s1) :
  this' = this ∧
  ∃ d inst s2,
    detector s1 = Some d ∧
    instances s1 !! this = Some inst ∧
    Detector_emit d (SigHotword index label buf) s1 = Ok tt s2 ∧
    trace s2 = trace s1
      ++ log_line (inst_logger inst) (hotword_message index label)
      ++ [EEmit this (EvHotword index label buf)].
Proof.
  rewrite start_lifecycle, lifecycle_eq in Hstart. unfold after_lifecycle in Hstart.
  destruct (audioRecorder s) as [r|]; [|done].
  destruct (instances s !! this) as [inst|] eqn:Ei; [|done].
  injection Hstart as <- <-. split; [done|].
  eexists (length (detectors s)), inst, _.
  split; [done|]. split; [done|].
  rewrite Detector_emit_eq. cbn [faulted]. unfold signal_outcome. proj.
  unfold after_setupDetector at 1. proj.
  rewrite list_lookup_middle by (by rewrite reset_prior_length).
  cbn [fresh_detector det_handlers handlers_outcome handler_outcome].
  unfold after_setupDetector at 1. proj. rewrite Ei.
  cbn [outcome_result app]. split; [reflexivity|].
  proj. by rewrite app_nil_r.
Qed.

Lemma C6_hotword_forwarded_unchanged_witness :
  start 0 after_first = Ok 0 listening ∧
  ∃ s2, Detector_emit 0 (SigHotword 0 "snowboy" []) listening = Ok tt s2 ∧
        trace s2 = trace listening ++ [EEmit 0 (EvHotword 0 "snowboy" [])].
Proof.
  assert (H : start 0 after_first = Ok 0 listening) by (vm_compute; reflexivity).
  split; [exact H|].
  destruct (C6_hotword_forwarded_unchanged 0 0 after_first listening 0 "snowboy" [] H)
    as (_ & d & inst & s2 & Hd & Hi & He & Ht).
  assert (d = 0) as -> by (vm_compute in Hd; congruence).
  assert (inst_logger inst = None) as Hl.
  { vm_compute in Hi. injection Hi as <-. reflexivity. }
  exists s2. split; [exact He|]. rewrite Ht, Hl. reflexivity.
Defined.

(** ** Claims about forwarded signals *)

Lemma added_outcome o s : added s (outcome_result o s) = o.1.
Proof. apply added_app. by destruct o as [l [e|]]. Qed.

Lemma is_Ok_outcome o s : is_Ok (outcome_result o s) ↔ o.2 = None.
Proof. destruct o as [l [e|]]; cbn; split; done. Qed.

Lemma Detector_emit_added d sig s :
  added s (Detector_emit d sig s) = (signal_outcome s d sig).1.
Proof.
  rewrite Detector_emit_eq. apply added_app.
  rewrite final_state_outcome. proj. by rewrite faulted_trace.
Qed.

Lemma Detector_emit_is_Ok d sig s :
  is_Ok (Detector_emit d sig s) ↔ (signal_outcome s d sig).2 = None.
Proof. rewrite Detector_emit_eq. apply is_Ok_outcome. Qed.

Lemma lifecycle_keeps_forwarding c msg :
  unpipes_but_keeps_forwarding (lifecycle false c msg).
Proof.
  intros this s s'.
  destruct (lifecycle_fields false c msg this s)
    as (_ & _ & Ei & _ & _ & _ & Ed & _ & Er & _).
  fold s' in Ei, Ed, Er. split; [done|]. split.
  - intros r d R' Hr Hd HR'. rewrite Er, Hr in HR'.
    unfold after_wiring in HR'. proj in HR'.
    rewrite list_lookup_alter_eq in HR'.
    destruct (recorders s !! r) as [R|]; [|done].
    injection HR' as <-. rewrite Hd. cbn [set_rec_pipes rec_pipes rewire].
    intros Hin%list_elem_of_filter. by destruct Hin.
  - intros d sig. rewrite !Detector_emit_added, !Detector_emit_is_Ok.
    unfold signal_outcome. by rewrite Ed, Ei.
Qed.

(** C3, as stated, fails: after [start()] and [stop()] in a freshly loaded
    module the recorder no longer pipes into detector 0, and a hotword
    signal raised by that detector still makes the listener emit
    [hotword]. *)
Lemma C3_stopped_detector_still_forwards :
  stop 0 listening = Ok 0 stopped ∧
  detector stopped = Some 0 ∧
  rec_pipes <$> recorders stopped !! 0 = Some [] ∧
  added stopped (Detector_emit 0 (SigHotword 0 "snowboy" []) stopped)
    = [EEmit 0 (EvHotword 0 "snowboy" [])].
Proof. repeat apply conj; vm_compute; reflexivity. Qed.

(** The detector a returned [start()] leaves active carries the four
    handlers of the starting listener, and nothing else. *)
Lemma started_signal_outcome this this' s s1 :
  start this s = Ok this' s1 →
  this' = this ∧
  detector s1 = Some (length (detectors s)) ∧
  instances s1 = instances s ∧
  ∀ sig, signal_outcome s1 (length (detectors s)) sig
         = handlers_outcome (instances s)
             [OnError this; OnHotword this; OnSilence this; OnSound this] sig.
Proof.
  intros Hstart.
  rewrite start_lifecycle, lifecycle_eq in Hstart. unfold after_lifecycle in Hstart.
  destruct (audioRecorder s) as [r|]; [|done].
  destruct (instances s !! this) as [inst|] eqn:Ei; [|done].
  injection Hstart as <- <-. repeat apply conj; try done.
  intros sig. unfold signal_outcome. proj.
  unfold after_setupDetector. proj.
  by rewrite list_lookup_middle by (by rewrite reset_prior_length).
Qed.

(** ** Claims about shared state *)

(** C2, as stated, fails: building a second listener rebinds the recorder
    and the model collection and rewrites the detector options the first
    listener runs with; the first listener's [start()] then drives the
    second's recorder, and a [start()] of the second replaces the detector
    the first had set up. *)
Lemma C2_second_listener_rebinds_first :
  audioRecorder after_first = Some 0 ∧ audioRecorder two_listeners = Some 1 ∧
  models after_first = Some 0 ∧ models two_listeners = Some 1 ∧
  field (heap after_first !! defaultDetector) "audioGain" = None ∧
  field (heap two_listeners !! defaultDetector) "audioGain" = Some (VNum 2) ∧
  rec_program <$> recorders two_listeners !! 1 = Some "sox" ∧
  added two_listeners (start 0 two_listeners)
    = [EDetNew 0 (Some defaultDetector); ERecCmd 1 CStart; EPipe 1 0] ∧
  detector (final_state (start 0 two_listeners)) = Some 0 ∧
  detector (final_state (start 1 (final_state (start 0 two_listeners)))) = Some 1.
Proof. repeat apply conj; vm_compute; reflexivity. Qed.

Lemma lifecycle_instance_blind setup c msg : instance_blind (lifecycle setup c msg).
Proof.
  intros i j s si sj.
  destruct (lifecycle_fields setup c msg i s)
    as (Ei1 & Ei2 & Ei3 & Ei4 & Ei5 & Ei6 & _ & Ei8 & Ei9 & _).
  destruct (lifecycle_fields setup c msg j s)
    as (Ej1 & Ej2 & Ej3 & Ej4 & Ej5 & Ej6 & _ & Ej8 & Ej9 & _).
  fold si in Ei1, Ei2, Ei3, Ei4, Ei5, Ei6, Ei8, Ei9.
  fold sj in Ej1, Ej2, Ej3, Ej4, Ej5, Ej6, Ej8, Ej9.
  rewrite Ei1, Ei2, Ei3, Ei4, Ei5, Ei6, Ei8, Ei9, Ej1, Ej2, Ej3, Ej4, Ej5, Ej6, Ej8, Ej9.
  destruct setup, (audioRecorder s); repeat apply conj; reflexivity.
Qed.

(** C2, amended. The detector, the recorder, the model collection and the
    detector options live in module-level bindings shared by all
    listeners.  A construction rebinds the recorder and the model
    collection to objects it creates, points the options binding at the
    one shared options object, and leaves the detector binding and the
    earlier listeners, recorders and collections as they were; each
    lifecycle method acts on whatever the bindings hold, in the same way
    whichever listener it is called on. *)
Theorem C2_state_is_module_level :
  (∀ modelData detectorData recordingProgram lg s,
     let s' := final_state (constructor modelData detectorData recordingProgram lg s) in
     audioRecorder s' = Some (length (recorders s)) ∧
     models s' = Some (length (collections s)) ∧
     detectorOptions s' = Some defaultDetector ∧
     detector s' = detector s ∧
     detectors s' = detectors s ∧
     take (length (recorders s)) (recorders s') = recorders s ∧
     take (length (collections s)) (collections s') = collections s ∧
     take (length (instances s)) (instances s') = instances s) ∧
  instance_blind start ∧ instance_blind stop ∧
  instance_blind pause ∧ instance_blind resume.
Proof.
  split; [|repeat apply conj; intros i j s].
  - intros. subst s'. rewrite constructor_eq. unfold after_constructor. proj.
    rewrite !take_app_length. repeat apply conj; reflexivity.
  - rewrite !start_lifecycle. apply lifecycle_instance_blind.
  - rewrite !stop_lifecycle. apply lifecycle_instance_blind.
  - rewrite !pause_lifecycle. apply lifecycle_instance_blind.
  - rewrite !resume_lifecycle. apply lifecycle_instance_blind.
Qed.

(** ** Claims about the logger *)

Lemma erase_inst_alter lg this (l : list HotwordDetector) :
  set_inst_logger None <$> alter (set_inst_logger lg) this l = set_inst_logger None <$> l.
Proof.
  apply list_eq. intros i. rewrite !list_lookup_fmap.
  destruct (decide (this = i)) as [->|Hne].
  - rewrite list_lookup_alter_eq. by destruct (l !! i).
  - by rewrite list_lookup_alter_ne.
Qed.

Lemma filter_log_line (keep : bool) lg msg :
  filter (λ e, is_logging e = keep) (log_line lg msg)
    = if keep then log_line lg msg else [].
Proof. by destruct keep, lg. Qed.

Lemma reachable_recorder s this inst :
  reachable s → instances s !! this = Some inst → is_Some (audioRecorder s).
Proof.
  intros Hs Hi. apply (wf_recorder s (reachable_wf s Hs)).
  apply lookup_lt_Some in Hi. lia.
Qed.

Lemma lifecycle_logger_free setup c msg : logger_free (lifecycle setup c msg).
Proof.
  intros this s inst Hs Hi Hl.
  destruct (reachable_recorder s this inst Hs Hi) as [r Hr].
  assert (Hrun : lifecycle setup c msg this s
                 = Ok this (after_wiring setup c r
                              (if setup then after_setupDetector this s else s))).
  { rewrite lifecycle_eq. unfold after_lifecycle. rewrite Hr, Hi, Hl.
    cbn [log_line]. by rewrite add_trace_nil. }
  split; [eauto|]. split.
  { rewrite Hrun. destruct setup.
    - erewrite added_app
        by (proj; unfold after_setupDetector; proj; rewrite <- ?app_assoc; reflexivity).
      unfold reset_calls. by destruct (detector s).
    - by erewrite added_app by (proj; reflexivity). }
  intros lg.
  assert (Hrun' : lifecycle setup c msg this (with_logger this lg s)
                  = Ok this (add_trace (log_line lg msg)
                      (after_wiring setup c r
                         (if setup then after_setupDetector this (with_logger this lg s)
                          else with_logger this lg s)))).
  { rewrite lifecycle_eq. unfold after_lifecycle. proj. rewrite Hr.
    rewrite list_lookup_alter_eq, Hi. reflexivity. }
  rewrite Hrun', Hrun. split; [done|].
  unfold same_up_to_logging. proj.
  destruct setup; unfold after_setupDetector; state_eq;
    rewrite ?erase_inst_alter, ?filter_app, ?filter_log_line, ?app_nil_r; reflexivity.
Qed.

(** C8. Built without a logger, a listener is constructed normally and
    every lifecycle method called on it in a reachable module state
    returns normally; neither makes a [log] or [warn] call; and giving the
    listener a logger changes nothing but the stored loggers and the
    logger calls. *)
Theorem C8_no_logger_no_logging :
  (∀ modelData detectorData recordingProgram s,
     (∃ this s', constructor modelData detectorData recordingProgram None s = Ok this s') ∧
     filter (λ e, is_logging e = true)
       (added s (constructor modelData detectorData recordingProgram None s)) = [] ∧
     ∀ lg, is_Ok (constructor modelData detectorData recordingProgram lg s) ∧
           same_up_to_logging
             (final_state (constructor modelData detectorData recordingProgram lg s))
             (final_state (constructor modelData detectorData recordingProgram None s))) ∧
  logger_free start ∧ logger_free stop ∧ logger_free pause ∧ logger_free resume.
Proof.
  split; [|repeat apply conj; intros this s inst].
  - intros. split; [rewrite constructor_eq; eauto|]. split.
    + rewrite constructor_eq. erewrite added_app by (unfold after_constructor; proj; reflexivity).
      reflexivity.
    + intros lg. rewrite !constructor_eq. split; [done|].
      unfold same_up_to_logging, after_constructor. proj.
      state_eq; try reflexivity.
      * by rewrite !fmap_app.
      * by rewrite !fmap_app.
      * rewrite !filter_app. by destruct lg.
  - rewrite start_lifecycle. apply lifecycle_logger_free.
  - rewrite stop_lifecycle. apply lifecycle_logger_free.
  - rewrite pause_lifecycle. apply lifecycle_logger_free.
  - rewrite resume_lifecycle. apply lifecycle_logger_free.
Qed.

Lemma reachable_after_first : reachable after_first.
Proof.
  unfold after_first. eapply reachable_step; [apply rtc_refl|apply step_constructor].
Qed.

Lemma C8_no_logger_no_logging_witness :
  reachable after_first ∧
  instances after_first !! 0 = Some {| inst_logger := None; inst_listeners := [] |} ∧
  (∃ s', start 0 after_first = Ok 0 s') ∧
  filter (λ e, is_logging e = true) (added after_first (start 0 after_first)) = [].
Proof.
  assert (Hi : instances after_first !! 0
               = Some {| inst_logger := None; inst_listeners := [] |})
    by (vm_compute; reflexivity).
  split; [apply reachable_after_first|]. split; [exact Hi|].
  destruct (proj1 (proj2 C8_no_logger_no_logging) 0 after_first _
              reachable_after_first Hi eq_refl) as (Hok & Hquiet & _).
  split; [exact Hok|exact Hquiet].
Defined.

(** ** Further properties of the module *)

Lemma lifecycle_returns_this setup c msg this this' s s' :
  lifecycle setup c msg this s = Ok this' s' → this' = this.
Proof.
  rewrite lifecycle_eq. unfold after_lifecycle.
  destruct (audioRecorder s); [|done].
  destruct (instances s !! this); [|done].
  by intros [= <- _].
Qed.

(** X1. Whichever of [start], [stop], [pause] and [resume] returns, it
    returns the listener it was called on, so calls can be chained. *)
Theorem X1_lifecycle_methods_return_this this this' s s'
    (Hret : start this s = Ok this' s' ∨ stop this s = Ok this' s' ∨
            pause this s = Ok this' s' ∨ resume this s = Ok this' s') :
  this' = this.
Proof.
  destruct Hret as [H|[H|[H|H]]].
  - rewrite start_lifecycle in H. by eapply lifecycle_returns_this.
  - rewrite stop_lifecycle in H. by eapply lifecycle_returns_this.
  - rewrite pause_lifecycle in H. by eapply lifecycle_returns_this.
  - rewrite resume_lifecycle in H. by eapply lifecycle_returns_this.
Qed.

Lemma X1_lifecycle_methods_return_this_witness :
  start 0 after_first = Ok 0 listening ∧ 0 = 0.
Proof.
  assert (H : start 0 after_first = Ok 0 listening) by (vm_compute; reflexivity).
  split; [exact H|].
  exact (X1_lifecycle_methods_return_this 0 0 after_first listening (or_introl H)).
Defined.

(** X2. A construction returns a listener that did not exist before, with
    the given logger stored and no subscriptions.  It emits no event and
    makes no call on the recorder it creates (capture is not begun, nothing
    is piped); its only logger call is the one initialization notice, made
    exactly when a logger was given; the detector binding is left alone. *)
Theorem X2_constructor_builds_without_connecting
    modelData detectorData recordingProgram lg s :
  let r := constructor modelData detectorData recordingProgram lg s in
  let this := length (instances s) in
  r = Ok this (final_state r) ∧
  instances s !! this = None ∧
  instances (final_state r) !! this
    = Some {| inst_logger := lg; inst_listeners := [] |} ∧
  filter (λ e, is_emit e = true) (added s r) = [] ∧
  filter (λ e, is_recorder_call e = true) (added s r) = [] ∧
  filter (λ e, is_logging e = true) (added s r)
    = log_line lg "HotwordDetector initialized." ∧
  detector (final_state r) = detector s.
Proof.
  cbv zeta. rewrite constructor_eq.
  erewrite added_app by (unfold after_constructor; proj; reflexivity).
  unfold after_constructor. proj.
  split; [done|]. split; [by apply lookup_ge_None|].
  split; [by apply list_lookup_middle|].
  by destruct lg.
Qed.

(** X3. The recorder a construction creates and binds is configured with
    sample rate 16000, threshold 0 and the listener's logger, has received
    no command and has no pipe.  Its program is the given one, and ['rec']
    when the program is absent or the empty string. *)
Theorem X3_recorder_configuration modelData detectorData recordingProgram lg s :
  let s' := final_state (constructor modelData detectorData recordingProgram lg s) in
  ∃ R,
    audioRecorder s' = Some (length (recorders s)) ∧
    recorders s' !! length (recorders s) = Some R ∧
    rec_sampleRate R = 16000%Z ∧ rec_threshold R = 0%Z ∧ rec_logger R = lg ∧
    rec_state R = RecCreated ∧ rec_pipes R = [] ∧
    (recordingProgram = None ∨ recordingProgram = Some "" → rec_program R = "rec") ∧
    (∀ p, recordingProgram = Some p → p ≠ "" → rec_program R = p).
Proof.
  cbv zeta. rewrite constructor_eq. unfold after_constructor. proj.
  eexists. split; [done|]. split; [by apply list_lookup_middle|].
  cbn [rec_sampleRate rec_threshold rec_logger rec_state rec_pipes rec_program].
  repeat apply conj; try done.
  - by intros [->| ->].
  - intros p -> Hp. unfold program_or_rec. by destruct (decide (p = "")).
Qed.

(** *** Merging model and detector overrides *)

Lemma foldl_assign_objs target h m l :
  h !! target = Some m →
  foldl (assign_one target) h (SrcObj <$> l) !! target = Some (merged m l).
Proof.
  revert h m. induction l as [|o l IH]; intros h m Hm; [done|].
  cbn [fmap list_fmap foldl merged]. apply IH.
  by rewrite assign_one_lookup, Hm.
Qed.

Lemma or_default_model_overrides o l :
  or_default_model (Some (o :: l)) = SrcObj <$> (o :: l).
Proof. reflexivity. Qed.

Lemma constructor_resolved o l detectorData recordingProgram lg s m i :
  heap s !! defaultModel = Some m → i < S (length l) →
  resolved_model
    (final_state (constructor (Some (o :: l)) detectorData recordingProgram lg s))
    (length (collections s)) i = Some (merged m (o :: l)).
Proof.
  intros Hm Hi. rewrite constructor_eq. unfold resolved_model, after_constructor. proj.
  rewrite list_lookup_middle by done. cbn [mbind option_bind].
  rewrite or_default_model_overrides, length_fmap.
  rewrite lookup_replicate_2 by (cbn [length]; lia). cbn [mbind option_bind].
  rewrite assign_other by done. by apply foldl_assign_objs.
Qed.

Lemma merged_lookup_inherit m l k :
  (∀ o, o ∈ l → o !! k = None) → merged m l !! k = m !! k.
Proof.
  revert m. induction l as [|o l IH]; intros m Hl; [done|].
  cbn [merged foldl]. fold (merged (o ∪ m) l).
  rewrite IH by (intros o' Ho'; apply Hl; by right).
  apply lookup_union_r. apply Hl. by left.
Qed.

Lemma merged_lookup_last m l1 o l2 k v :
  o !! k = Some v → (∀ o', o' ∈ l2 → o' !! k = None) →
  merged m (l1 ++ o :: l2) !! k = Some v.
Proof.
  intros Ho Hl2. unfold merged. rewrite foldl_app. cbn [foldl].
  fold (merged (o ∪ foldl (λ acc o0, o0 ∪ acc) m l1) l2).
  rewrite merged_lookup_inherit by done.
  by apply lookup_union_Some_l.
Qed.

(** X4. The models of one construction are one object: with overrides
    [o :: l], every entry of the new collection resolves to the same
    object, the default with all the overrides merged into it in order, so
    that the n models of a listener cannot differ from each other. *)
Theorem X4_models_of_one_listener_are_one_object
    o l detectorData recordingProgram lg s m
    (Hdefault : heap s !! defaultModel = Some m) :
  let s' := final_state (constructor (Some (o :: l)) detectorData recordingProgram lg s) in
  models s' = Some (length (collections s)) ∧
  ∀ i, i < S (length l) →
    resolved_model s' (length (collections s)) i = Some (merged m (o :: l)).
Proof.
  split.
  - apply constructor_collection.
  - intros i Hi. by apply constructor_resolved.
Qed.

Lemma X4_models_of_one_listener_are_one_object_witness :
  heap init !! defaultModel = Some builtin_defaultModel ∧
  resolved_model
    (final_state (constructor (Some [first_override; second_override]) None None None init))
    0 0
  = resolved_model
      (final_state (constructor (Some [first_override; second_override]) None None None init))
      0 1.
Proof.
  assert (H : heap init !! defaultModel = Some builtin_defaultModel) by reflexivity.
  split; [exact H|].
  destruct (X4_models_of_one_listener_are_one_object first_override [second_override]
              None None None init builtin_defaultModel H) as [_ Hall].
  assert (H0 : 0 < 2) by lia. assert (H1 : 1 < 2) by lia.
  exact (eq_trans (Hall 0 H0) (eq_sym (Hall 1 H1))).
Defined.

(** X5. Field by field, the resolved model of a construction takes a field
    from the last override that supplies it and inherits it from the
    default object (as the construction found it) when no override does. *)
Theorem X5_supplied_fields_win_unset_inherit
    o l detectorData recordingProgram lg s m i
    (Hdefault : heap s !! defaultModel = Some m) (Hi : i < S (length l)) :
  let s' := final_state (constructor (Some (o :: l)) detectorData recordingProgram lg s) in
  let resolved := resolved_model s' (length (collections s)) i in
  (∀ k, (∀ o', o' ∈ o :: l → o' !! k = None) → field resolved k = m !! k) ∧
  (∀ l1 o1 l2 k v,
     o :: l = l1 ++ o1 :: l2 → o1 !! k = Some v →
     (∀ o', o' ∈ l2 → o' !! k = None) → field resolved k = Some v).
Proof.
  cbv zeta. rewrite (constructor_resolved _ _ _ _ _ _ m) by done.
  cbn [field mbind option_bind]. split.
  - intros k Hk. by apply merged_lookup_inherit.
  - intros l1 o1 l2 k v -> Ho1 Hl2. by apply merged_lookup_last.
Qed.

Lemma X5_supplied_fields_win_unset_inherit_witness :
  heap init !! defaultModel = Some builtin_defaultModel ∧ 0 < 1 ∧
  field (resolved_model after_first 0 0) "file"
    = Some (VStr "./node_modules/snowboy/resources/snowboy.umdl") ∧
  field (resolved_model after_first 0 0) "hotwords" = Some (VStr "alexa").
Proof.
  assert (H : heap init !! defaultModel = Some builtin_defaultModel) by reflexivity.
  assert (Hi : 0 < 1) by lia.
  split; [exact H|]. split; [exact Hi|].
  destruct (X5_supplied_fields_win_unset_inherit first_override [] None None None
              init builtin_defaultModel 0 H Hi) as [Hinherit Hwin].
  split.
  - refine (eq_trans (Hinherit "file" _) _); [|reflexivity].
    intros o' Ho'%list_elem_of_singleton. subst. reflexivity.
  - refine (Hwin [] first_override [] "hotwords" (VStr "alexa") eq_refl eq_refl _).
    intros o' Ho'. by apply elem_of_nil in Ho'.
Defined.

Lemma constructor_options modelData detectorData recordingProgram lg s m :
  heap s !! defaultDetector = Some m →
  heap (final_state (constructor modelData detectorData recordingProgram lg s))
    !! defaultDetector
  = Some ({[ "models" := VModels (length (collections s)) ]}
            ∪ (default ∅ detectorData ∪ m)).
Proof.
  intros Hm. rewrite constructor_eq. unfold after_constructor. proj.
  cbn [foldl]. rewrite !assign_one_lookup, assign_other, Hm by done.
  by destruct detectorData.
Qed.

Lemma constructor_options_field modelData detectorData recordingProgram lg s m k :
  heap s !! defaultDetector = Some m → k ≠ "models" →
  field (heap (final_state (constructor modelData detectorData recordingProgram lg s))
           !! defaultDetector) k
  = match detectorData ≫= (.!! k) with
    | Some v => Some v
    | None => m !! k
    end.
Proof.
  intros Hm Hk. rewrite (constructor_options _ _ _ _ _ m) by done.
  cbn [field mbind option_bind].
  rewrite lookup_union_r by (by apply lookup_singleton_ne).
  destruct detectorData as [o|]; cbn [default mbind option_bind].
  - destruct (o !! k) as [v|] eqn:Ho.
    + by apply lookup_union_Some_l.
    + by apply lookup_union_r.
  - apply lookup_union_r, lookup_empty.
Qed.

(** X6. Apart from [models], a field of the detector options a
    construction resolves is the caller's when the override object
    supplies it, and otherwise whatever the shared options object held
    before the construction. *)
Theorem X6_detector_options_merge
    modelData detectorData recordingProgram lg s m k
    (Hdefault : heap s !! defaultDetector = Some m) (Hk : k ≠ "models") :
  let s' := final_state (constructor modelData detectorData recordingProgram lg s) in
  detectorOptions s' = Some defaultDetector ∧
  field (heap s' !! defaultDetector) k
    = match detectorData ≫= (.!! k) with
      | Some v => Some v
      | None => m !! k
      end.
Proof.
  split.
  - by rewrite constructor_eq.
  - by apply constructor_options_field.
Qed.

Lemma X6_detector_options_merge_witness :
  heap init !! defaultDetector = Some builtin_defaultDetector ∧ "resource" ≠ "models" ∧
  field (heap after_first !! defaultDetector) "resource"
    = Some (VStr "./node_modules/snowboy/resources/common.res").
Proof.
  assert (H : heap init !! defaultDetector = Some builtin_defaultDetector) by reflexivity.
  assert (Hk : "resource" ≠ "models") by discriminate.
  split; [exact H|]. split; [exact Hk|].
  exact (proj2 (X6_detector_options_merge (Some [first_override]) None None None init
                  builtin_defaultDetector "resource" H Hk)).
Defined.

(** X7. The options object is shared between constructions: a field that
    the detector override of one construction supplied is still in the
    options a later construction without override resolves. *)
Theorem X7_detector_override_persists
    modelData1 o recordingProgram1 lg1 modelData2 recordingProgram2 lg2 s k v
    (Hdefault : is_Some (heap s !! defaultDetector))
    (Hk : k ≠ "models") (Ho : o !! k = Some v) :
  let s1 := final_state (constructor modelData1 (Some o) recordingProgram1 lg1 s) in
  let s2 := final_state (constructor modelData2 None recordingProgram2 lg2 s1) in
  field (heap s1 !! defaultDetector) k = Some v ∧
  field (heap s2 !! defaultDetector) k = Some v.
Proof.
  destruct Hdefault as [m Hm]. intros s1 s2.
  assert (H1 : field (heap s1 !! defaultDetector) k = Some v).
  { unfold s1. rewrite (constructor_options_field _ _ _ _ _ m) by done.
    cbn [mbind option_bind]. by rewrite Ho. }
  split; [exact H1|].
  destruct (heap s1 !! defaultDetector) as [m1|] eqn:Hm1; [|done].
  unfold s2. rewrite (constructor_options_field _ _ _ _ _ m1) by done.
  exact H1.
Qed.

Lemma X7_detector_override_persists_witness :
  is_Some (heap init !! defaultDetector) ∧ "audioGain" ≠ "models" ∧
  ({[ "audioGain" := VNum 2 ]} : obj) !! "audioGain" = Some (VNum 2) ∧
  field (heap (final_state (constructor None None None None
                 (final_state (constructor None (Some {[ "audioGain" := VNum 2 ]})
                                 None None init))))
         !! defaultDetector) "audioGain" = Some (VNum 2).
Proof.
  assert (H : is_Some (heap init !! defaultDetector)) by (vm_compute; eauto).
  assert (Hk : "audioGain" ≠ "models") by discriminate.
  assert (Ho : ({[ "audioGain" := VNum 2 ]} : obj) !! "audioGain" = Some (VNum 2))
    by apply lookup_singleton_eq.
  split; [exact H|]. split; [exact Hk|]. split; [exact Ho|].
  exact (proj2 (X7_detector_override_persists None {[ "audioGain" := VNum 2 ]} None None
                  None None None init "audioGain" (VNum 2) H Hk Ho)).
Defined.

(** X8. Absent model data and an empty array are treated alike: the
    collection gets one entry, the shared default object itself, and the
    self-merge of line 81 leaves that object as it was. *)
Theorem X8_no_model_data_uses_the_default_itself
    detectorData recordingProgram lg s :
  constructor (Some []) detectorData recordingProgram lg s
    = constructor None detectorData recordingProgram lg s ∧
  let s' := final_state (constructor None detectorData recordingProgram lg s) in
  collections s' !! length (collections s) = Some [defaultModel] ∧
  heap s' !! defaultModel = heap s !! defaultModel.
Proof.
  split; [by rewrite !constructor_eq|].
  cbv zeta. rewrite constructor_eq. unfold after_constructor. proj.
  split; [by apply list_lookup_middle|].
  rewrite assign_other by done.
  cbn [or_default_model foldl]. rewrite assign_one_lookup.
  cbn [read_source]. destruct (heap s !! defaultModel) as [m|]; [|done].
  cbn [default fmap option_fmap option_map]. by rewrite (idemp_L (∪) m).
Qed.

(** *** Forwarding and the recorder *)

(** X9. After a [start()] that returned, a silence signal of the active
    detector makes the listener emit [silence] without arguments, and a
    sound signal makes it emit [sound] with the same buffer; in both cases
    this one emission is the only thing that happens, logger or not. *)
Theorem X9_silence_and_sound_forwarded this this' s s1 buf
    (Hstart : start this s = Ok this' s1) :
  ∃ d, detector s1 = Some d ∧
    Detector_emit d SigSilence s1 = Ok tt (add_trace [EEmit this EvSilence] s1) ∧
    Detector_emit d (SigSound buf) s1 = Ok tt (add_trace [EEmit this (EvSound buf)] s1).
Proof.
  destruct (started_signal_outcome this this' s s1 Hstart) as (_ & Hd & Hi & Ho).
  assert (is_Some (instances s !! this)) as [inst Ei].
  { rewrite start_lifecycle, lifecycle_eq in Hstart. unfold after_lifecycle in Hstart.
    destruct (audioRecorder s); [|done]. by destruct (instances s !! this). }
  exists (length (detectors s)). split; [done|].
  rewrite !Detector_emit_eq, !Ho.
  cbn [faulted handlers_outcome handler_outcome]. rewrite Ei. done.
Qed.

Lemma X9_silence_and_sound_forwarded_witness :
  start 0 after_first = Ok 0 listening ∧
  Detector_emit 0 (SigSound []) listening
    = Ok tt (add_trace [EEmit 0 (EvSound [])] listening).
Proof.
  assert (H : start 0 after_first = Ok 0 listening) by (vm_compute; reflexivity).
  split; [exact H|].
  destruct (X9_silence_and_sound_forwarded 0 0 after_first listening [] H)
    as (d & Hd & _ & Hsound).
  assert (d = 0) as -> by (vm_compute in Hd; congruence).
  exact Hsound.
Defined.



(** The recorder a lifecycle method leaves behind. *)
Lemma lifecycle_recorders setup c msg this s r :
  audioRecorder s = Some r →
  recorders (final_state (lifecycle setup c msg this s))
  = alter (λ R, set_rec_pipes
                  (rewire setup (if setup then Some (length (detectors s)) else detector s))
                  (set_rec_state (status_after c) R)) r (recorders s).
Proof.
  intros Hr.
  destruct (lifecycle_fields setup c msg this s) as (_&_&_&_&_&_&_&_& Er &_).
  rewrite Er, Hr. by destruct setup.
Qed.

Lemma lifecycle_ok setup c msg this s r inst :
  audioRecorder s = Some r → instances s !! this = Some inst →
  ∃ s', lifecycle setup c msg this s = Ok this s' ∧
        audioRecorder s' = Some r ∧ instances s' = instances s ∧
        detector s' = (if setup then Some (length (detectors s)) else detector s) ∧
        detectors s' = (if setup then reset_prior s ++ [fresh_detector this s]
                        else detectors s) ∧
        recorders s' = recorders (final_state (lifecycle setup c msg this s)).
Proof.
  intros Hr Hi.
  destruct (lifecycle_fields setup c msg this s) as (_&_& Ei & Ea &_&_& Ed & Edet &_&_).
  exists (final_state (lifecycle setup c msg this s)).
  split; [rewrite lifecycle_eq; unfold after_lifecycle; by rewrite Hr, Hi|].
  rewrite Ei, Ea, Ed, Edet, Hr. by destruct setup.
Qed.

(** X11. On the bound recorder, [start] and [resume] leave the recorder
    recording and add the new detector to its pipes without detaching
    anything: a detector that was piped before stays piped.  [stop] and
    [pause] leave it stopped resp. paused and take the bound detector out
    of its pipes, or every pipe when no detector is bound. *)
Theorem X11_recorder_after_lifecycle this s r R
    (Hrecorder : audioRecorder s = Some r) (HR : recorders s !! r = Some R) :
  let after method := recorders (final_state (method this s)) !! r in
  let unpiped := match detector s with
                 | Some d => filter (λ x, x ≠ d) (rec_pipes R)
                 | None => []
                 end in
  after start = Some (set_rec_pipes (λ ps, ps ++ [length (detectors s)])
                        (set_rec_state RecRecording R)) ∧
  after resume = Some (set_rec_pipes (λ ps, ps ++ [length (detectors s)])
                         (set_rec_state RecRecording R)) ∧
  after stop = Some (set_rec_pipes (λ _, unpiped) (set_rec_state RecStopped R)) ∧
  after pause = Some (set_rec_pipes (λ _, unpiped) (set_rec_state RecPaused R)).
Proof.
  cbv beta zeta. rewrite start_lifecycle, resume_lifecycle, stop_lifecycle, pause_lifecycle.
  rewrite !(lifecycle_recorders _ _ _ _ _ r) by done.
  rewrite !list_lookup_alter_eq, HR. cbn [fmap option_fmap option_map status_after].
  unfold set_rec_pipes. cbn [rewire rec_pipes set_rec_state].
  by destruct (detector s).
Qed.

Lemma X11_recorder_after_lifecycle_witness :
  audioRecorder listening = Some 0 ∧
  (∃ R, recorders listening !! 0 = Some R ∧
        rec_pipes <$> recorders (final_state (start 0 listening)) !! 0
          = Some (rec_pipes R ++ [1])).
Proof.
  assert (Hr : audioRecorder listening = Some 0) by (vm_compute; reflexivity).
  split; [exact Hr|].
  destruct (recorders listening !! 0) as [R|] eqn:HR; [|vm_compute in HR; discriminate].
  exists R. split; [reflexivity|].
  destruct (X11_recorder_after_lifecycle 0 listening 0 R Hr HR) as (Hstart & _).
  cbv beta zeta in Hstart. rewrite Hstart.
  cbn [fmap option_fmap option_map set_rec_pipes rec_pipes set_rec_state].
  replace (length (detectors listening)) with 1 by (vm_compute; reflexivity).
  reflexivity.
Defined.

(** X12. A lifecycle method touches no recorder but the bound one: the
    recorders of earlier constructions stay in the state and with the
    pipes they had, whichever listener the method is called on. *)
Theorem X12_other_recorders_untouched this s r'
    (Hother : audioRecorder s ≠ Some r') :
  recorders (final_state (start this s)) !! r' = recorders s !! r' ∧
  recorders (final_state (stop this s)) !! r' = recorders s !! r' ∧
  recorders (final_state (pause this s)) !! r' = recorders s !! r' ∧
  recorders (final_state (resume this s)) !! r' = recorders s !! r'.
Proof.
  assert (H : ∀ setup c msg,
    recorders (final_state (lifecycle setup c msg this s)) !! r' = recorders s !! r').
  { intros setup c msg. destruct (audioRecorder s) as [r|] eqn:Hr.
    - rewrite (lifecycle_recorders _ _ _ _ _ r) by done.
      apply list_lookup_alter_ne. congruence.
    - destruct (lifecycle_fields setup c msg this s) as (_&_&_&_&_&_&_&_& Er &_).
      by rewrite Er, Hr. }
  rewrite start_lifecycle, stop_lifecycle, pause_lifecycle, resume_lifecycle.
  by rewrite !H.
Qed.

Lemma X12_other_recorders_untouched_witness :
  audioRecorder two_listeners ≠ Some 0 ∧
  recorders (final_state (stop 0 two_listeners)) !! 0 = recorders two_listeners !! 0.
Proof.
  assert (H : audioRecorder two_listeners ≠ Some 0) by (vm_compute; discriminate).
  split; [exact H|].
  exact (proj1 (proj2 (X12_other_recorders_untouched 0 two_listeners 0 H))).
Defined.

(** X13. [start(); pause(); resume()] on a listener whose recorder is
    bound: all three return; afterwards the bound detector is the one
    [resume] created, never reset, the detector [start] had created has
    been reset once, and the recorder is recording with the paused detector
    taken out of its pipes and the new one added, so that of the two only
    the new detector is connected. *)
Theorem X13_start_pause_resume this s r R inst
    (Hrecorder : audioRecorder s = Some r) (HR : recorders s !! r = Some R)
    (Hthis : instances s !! this = Some inst) :
  let d := length (detectors s) in
  ∃ s1 s2 s3,
    start this s = Ok this s1 ∧ pause this s1 = Ok this s2 ∧
    resume this s2 = Ok this s3 ∧
    detector s3 = Some (S d) ∧
    det_resets <$> detectors s3 !! d = Some 1 ∧
    det_resets <$> detectors s3 !! S d = Some 0 ∧
    ∃ R3, recorders s3 !! r = Some R3 ∧ rec_state R3 = RecRecording ∧
          rec_pipes R3 = filter (λ x, x ≠ d) (rec_pipes R) ++ [S d].
Proof.
  intros d.
  destruct (lifecycle_ok true CStart "HotwordDetector: Started detecting." this s r inst
              Hrecorder Hthis) as (s1 & E1 & Ha1 & Hi1 & Hd1 & Hds1 & Hr1).
  rewrite (lifecycle_recorders _ _ _ _ _ r) in Hr1 by done.
  assert (Hthis1 : instances s1 !! this = Some inst) by (by rewrite Hi1).
  destruct (lifecycle_ok false CPause "HotwordDetector: Paused detecting." this s1 r inst
              Ha1 Hthis1) as (s2 & E2 & Ha2 & Hi2 & Hd2 & Hds2 & Hr2).
  rewrite (lifecycle_recorders _ _ _ _ _ r) in Hr2 by done.
  assert (Hthis2 : instances s2 !! this = Some inst) by (by rewrite Hi2).
  destruct (lifecycle_ok true CResume "HotwordDetector: Resumed detecting." this s2 r inst
              Ha2 Hthis2) as (s3 & E3 & Ha3 & Hi3 & Hd3 & Hds3 & Hr3).
  rewrite (lifecycle_recorders _ _ _ _ _ r) in Hr3 by done.
  assert (Hlen : length (detectors s2) = S d).
  { rewrite Hds2, Hds1, length_app, reset_prior_length. cbn [length]. unfold d. lia. }
  exists s1, s2, s3. repeat apply conj; try done.
  - by rewrite Hd3, Hlen.
  - rewrite Hds3. unfold reset_prior. rewrite Hd2, Hd1. fold d.
    rewrite lookup_app_l by (rewrite length_alter; lia).
    rewrite list_lookup_alter_eq, Hds2, Hds1.
    rewrite list_lookup_middle by (by rewrite reset_prior_length). done.
  - rewrite Hds3. rewrite list_lookup_middle; [done|].
    by rewrite reset_prior_length.
  - rewrite Hr3, Hr2, Hr1. cbv beta iota. rewrite Hd1, Hlen. fold d.
    rewrite !list_lookup_alter_eq, HR. cbn [fmap option_fmap option_map].
    eexists. split; [reflexivity|]. split; [done|].
    cbn [set_rec_pipes rec_pipes set_rec_state rewire].
    rewrite filter_app. f_equal.
    rewrite filter_cons_False by (intros ?; done). by rewrite filter_nil, app_nil_r.
Qed.

Lemma X13_start_pause_resume_witness :
  audioRecorder after_first = Some 0 ∧
  instances after_first !! 0 = Some {| inst_logger := None; inst_listeners := [] |} ∧
  ∃ R s3, recorders after_first !! 0 = Some R ∧
    resume 0 (final_state (pause 0 (final_state (start 0 after_first)))) = Ok 0 s3 ∧
    detector s3 = Some 1.
Proof.
  assert (Hr : audioRecorder after_first = Some 0) by (vm_compute; reflexivity).
  assert (Hi : instances after_first !! 0
               = Some {| inst_logger := None; inst_listeners := [] |})
    by (vm_compute; reflexivity).
  split; [exact Hr|]. split; [exact Hi|].
  destruct (recorders after_first !! 0) as [R|] eqn:HR; [|vm_compute in HR; discriminate].
  destruct (X13_start_pause_resume 0 after_first 0 R _ Hr HR Hi)
    as (s1 & s2 & s3 & E1 & E2 & E3 & Hd & _).
  exists R, s3. split; [reflexivity|].
  rewrite E1. cbn [final_state]. rewrite E2. cbn [final_state].
  split; [exact E3|].
  rewrite Hd. vm_compute. reflexivity.
Defined.

(** *** Invariants over every history of the module *)

Lemma step_inv s s' :
  step s s' →
  (∃ modelData detectorData recordingProgram lg,
     s' = after_constructor modelData detectorData recordingProgram lg s) ∨
  (∃ setup c msg this, s' = final_state (lifecycle setup c msg this s)) ∨
  (∃ this n f, s' = set_instances (alter (add_inst_listener n f) this) s) ∨
  (∃ l, s' = add_trace l s) ∨
  (∃ l d, s' = add_trace l (set_recorders (fmap (drop_pipe d)) s)).
Proof.
  intros []; [left|right; left..|right; right; left|right; right; right].
  - rewrite constructor_eq. eauto.
  - rewrite start_lifecycle. eauto.
  - rewrite stop_lifecycle. eauto.
  - rewrite pause_lifecycle. eauto.
  - rewrite resume_lifecycle. eauto.
  - eauto.
  - rewrite Detector_emit_eq, final_state_outcome.
    destruct sig; cbn [faulted]; eauto.
Qed.

(** An invariant of all steps that holds initially holds in every
    reachable state; the step may use that its source is reachable. *)
Lemma reachable_ind (P : state → Prop) :
  P init → (∀ s s', reachable s → P s → step s s' → P s') →
  ∀ s, reachable s → P s.
Proof.
  intros Hinit Hstep s Hs. unfold reachable in Hs. revert s Hs.
  apply rtc_ind_r; [done|]. intros s0 s1 H0 H1 IH. by eapply Hstep.
Qed.

Lemma lifecycle_detectors setup c msg this s :
  let s' := final_state (lifecycle setup c msg this s) in
  (setup = false ∧ detector s' = detector s ∧ detectors s' = detectors s) ∨
  (setup = true ∧ detector s' = Some (length (detectors s)) ∧
   detectors s' = reset_prior s ++ [fresh_detector this s]).
Proof.
  destruct (lifecycle_fields setup c msg this s) as (_&_&_&_&_&_& Ed & Edet &_&_).
  cbv zeta. rewrite Ed, Edet. destruct setup; [right|left]; done.
Qed.

Lemma bound_ok_step s s' : wf s → bound_ok s → step s s' → bound_ok s'.
Proof.
  intros Hwf [Hr Hm Hd Ho] Hstep.
  destruct (step_inv s s' Hstep)
    as [(md & dd & rp & lg & ->)|[(setup & c & msg & this & ->)|
        [(this & n & f & ->)|[(l & ->)|(l & d' & ->)]]]].
  - unfold after_constructor. split; proj.
    + intros r [= <-]. rewrite list_lookup_middle by done. eauto.
    + intros c [= <-]. rewrite list_lookup_middle by done. eauto.
    + done.
    + intros o [= <-]. split; [done|].
      apply assign_is_Some, assign_is_Some. apply (wf_defaultDetector s Hwf).
  - destruct (lifecycle_fields setup c msg this s)
      as (Eh & Ec &_& Ea & Em & Eo &_&_& Er &_).
    split.
    + intros r Hr'. rewrite Ea in Hr'. rewrite Er, Hr'.
      unfold after_wiring. proj. apply lookup_lt_is_Some. rewrite length_alter.
      apply lookup_lt_is_Some. destruct setup; unfold after_setupDetector; proj; eauto.
    + intros c0. rewrite Em, Ec. eauto.
    + intros d Hd'.
      destruct (lifecycle_detectors setup c msg this s)
        as [(_ & E1 & E2)|(_ & E1 & E2)]; rewrite E2; rewrite E1 in Hd'; [eauto|].
      injection Hd' as <-. rewrite list_lookup_middle; [eauto|].
      by rewrite reset_prior_length.
    + intros o. rewrite Eo, Eh. eauto.
  - split; proj; eauto.
  - split; proj; eauto.
  - split; proj; eauto.
    intros r Hr'. rewrite list_lookup_fmap. apply fmap_is_Some. eauto.
Qed.

(** X14. In every state the module can reach, each binding that is set
    refers to an object that exists: the recorder, the model collection
    and the detector bindings never dangle, and the options binding refers
    to the one shared options object. *)
Theorem X14_bindings_never_dangle s (Hreach : reachable s) : bound_ok s.
Proof.
  revert s Hreach. apply reachable_ind.
  - split; cbn [init audioRecorder models detector detectorOptions]; done.
  - intros s s' Hs IH Hstep. eapply bound_ok_step; eauto using reachable_wf.
Qed.

Lemma X14_bindings_never_dangle_witness :
  reachable cycled ∧ is_Some (detectors cycled !! 2).
Proof.
  split; [apply reachable_cycled|].
  apply (bound_detector cycled (X14_bindings_never_dangle cycled reachable_cycled)).
  vm_compute. reflexivity.
Defined.

Lemma reset_discipline_setup this s :
  reset_discipline s →
  ∀ d D, (reset_prior s ++ [fresh_detector this s]) !! d = Some D →
    det_resets D = if decide (d = length (detectors s)) then 0 else 1.
Proof.
  intros Hs d D HD.
  destruct (decide (d = length (detectors s))) as [->|Hne].
  - rewrite list_lookup_middle in HD by (by rewrite reset_prior_length).
    by injection HD as <-.
  - assert (d < length (detectors s)) as Hlt.
    { apply lookup_lt_Some in HD.
      rewrite length_app, reset_prior_length in HD. cbn [length] in HD. lia. }
    rewrite lookup_app_l in HD by (by rewrite reset_prior_length).
    unfold reset_discipline, reset_prior in *.
    destruct (detector s) as [n|].
    + destruct Hs as [Hlen Hall].
      destruct (decide (n = d)) as [->|Hnd].
      * rewrite list_lookup_alter_eq in HD.
        destruct (detectors s !! d) as [D0|] eqn:HD0; [|done].
        injection HD as <-. cbn [incr_det_resets det_resets].
        specialize (Hall d D0 HD0). rewrite decide_True in Hall by done. by rewrite Hall.
      * rewrite list_lookup_alter_ne in HD by done.
        specialize (Hall d D HD). by rewrite decide_False in Hall by done.
    + rewrite Hs in Hlt. cbn [length] in Hlt. lia.
Qed.

Lemma reset_discipline_step s s' : reset_discipline s → step s s' → reset_discipline s'.
Proof.
  intros Hs Hstep.
  destruct (step_inv s s' Hstep)
    as [(md & dd & rp & lg & ->)|[(setup & c & msg & this & ->)|
        [(this & n & f & ->)|[(l & ->)|(l & d' & ->)]]]].
  - exact Hs.
  - destruct (lifecycle_detectors setup c msg this s)
      as [(_ & E1 & E2)|(_ & E1 & E2)]; unfold reset_discipline; rewrite E1, E2.
    + exact Hs.
    + split.
      * rewrite length_app, reset_prior_length. cbn [length]. lia.
      * by apply reset_discipline_setup.
  - exact Hs.
  - exact Hs.
  - exact Hs.
Qed.

(** X15. In every state the module can reach, the bound detector is the
    most recently created one and has never been reset, and every other
    detector ever created has been reset exactly once: a detector is
    disposed when it is replaced, and only then. *)
Theorem X15_superseded_detectors_reset_once s (Hreach : reachable s) :
  reset_discipline s.
Proof.
  revert s Hreach. apply reachable_ind; [done|].
  intros s s' _ IH Hstep. by eapply reset_discipline_step.
Qed.

Lemma X15_superseded_detectors_reset_once_witness :
  reachable cycled ∧ reset_discipline cycled.
Proof.
  split; [apply reachable_cycled|].
  exact (X15_superseded_detectors_reset_once cycled reachable_cycled).
Defined.

Lemma handlers_ok_step s s' : handlers_ok s → step s s' → handlers_ok s'.
Proof.
  intros Hs Hstep.
  destruct (step_inv s s' Hstep)
    as [(md & dd & rp & lg & ->)|[(setup & c & msg & this & ->)|
        [(this & n & f & ->)|[(l & ->)|(l & d' & ->)]]]];
    [exact Hs| |exact Hs|exact Hs|exact Hs].
  destruct (lifecycle_detectors setup c msg this s)
    as [(_ & _ & E2)|(_ & _ & E2)]; unfold handlers_ok; rewrite E2; [exact Hs|].
  intros d D HD. apply lookup_app_Some in HD as [HD|[_ HD]].
  - unfold reset_prior in HD. destruct (detector s) as [n|]; [|by eapply Hs].
    destruct (decide (n = d)) as [->|Hne].
    + rewrite list_lookup_alter_eq in HD.
      destruct (detectors s !! d) as [D0|] eqn:HD0; [|done].
      injection HD as <-. cbn [incr_det_resets det_handlers]. by eapply Hs.
    + rewrite list_lookup_alter_ne in HD by done. by eapply Hs.
  - apply list_lookup_singleton_Some in HD as [_ <-]. by exists this.
Qed.

Lemma four_handlers_one_emit insts this sig :
  length (filter (λ e, is_emit e = true)
            (handlers_outcome insts (four_handlers this) sig).1) ≤ 1.
Proof.
  destruct sig as [|index hotword buf| |buf];
    cbn [four_handlers handlers_outcome handler_outcome];
    destruct (insts !! this) as [inst|]; cbn [fst app].
  all: try destruct (has_listener NError inst).
  all: try destruct (inst_logger inst) as [l|].
  all: cbn [fst app log_line warn_line].
  all: repeat first [ rewrite filter_cons_True by done
                    | rewrite filter_cons_False by done ].
  all: rewrite filter_nil; cbn [length]; lia.
Qed.

(** X16. No duplicate delivery: in every state the module can reach, a
    signal raised by any detector, active or superseded, makes the module
    call [emit] at most once. *)
Theorem X16_one_emit_per_signal s d sig (Hreach : reachable s) :
  length (filter (λ e, is_emit e = true) (added s (Detector_emit d sig s))) ≤ 1.
Proof.
  assert (Hok : handlers_ok s).
  { revert s Hreach. apply reachable_ind.
    - intros d0 D0 HD0. by cbn in HD0.
    - intros s s' _ IH Hstep. by eapply handlers_ok_step. }
  rewrite Detector_emit_added. unfold signal_outcome.
  destruct (detectors s !! d) as [D|] eqn:HD; [|cbn; lia].
  destruct (Hok d D HD) as [this ->]. apply four_handlers_one_emit.
Qed.

Lemma X16_one_emit_per_signal_witness :
  reachable cycled ∧
  length (filter (λ e, is_emit e = true)
            (added cycled (Detector_emit 0 (SigHotword 0 "snowboy" []) cycled))) ≤ 1.
Proof.
  split; [apply reachable_cycled|].
  exact (X16_one_emit_per_signal cycled 0 (SigHotword 0 "snowboy" []) reachable_cycled).
Defined.

Lemma detector_kept_step s s' d D :
  step s s' → detectors s !! d = Some D →
  ∃ D', detectors s' !! d = Some D' ∧
        det_handlers D' = det_handlers D ∧ det_options D' = det_options D.
Proof.
  intros Hstep HD.
  destruct (step_inv s s' Hstep)
    as [(md & dd & rp & lg & ->)|[(setup & c & msg & this & ->)|
        [(this & n & f & ->)|[(l & ->)|(l & d' & ->)]]]];
    [by exists D| |by exists D|by exists D|by exists D].
  destruct (lifecycle_detectors setup c msg this s)
    as [(_ & _ & E2)|(_ & _ & E2)]; rewrite E2; [by exists D|].
  assert (d < length (detectors s)) by (by eapply lookup_lt_Some).
  rewrite lookup_app_l by (by rewrite reset_prior_length).
  unfold reset_prior. destruct (detector s) as [n|]; [|by exists D].
  destruct (decide (n = d)) as [->|Hne].
  - rewrite list_lookup_alter_eq, HD. by exists (incr_det_resets D).
  - rewrite list_lookup_alter_ne by done. by exists D.
Qed.

Lemma detector_kept s s' d D :
  rtc step s s' → detectors s !! d = Some D →
  ∃ D', detectors s' !! d = Some D' ∧
        det_handlers D' = det_handlers D ∧ det_options D' = det_options D.
Proof.
  intros Hlater. revert D.
  induction Hlater as [s|s s1 s' Hstep _ IH]; intros D HD; [by exists D|].
  destruct (detector_kept_step s s1 d D Hstep HD) as (D1 & HD1 & Hh & Ho).
  destruct (IH D1 HD1) as (D' & HD' & Hh' & Ho').
  exists D'. split; [done|]. split; congruence.
Qed.

(** X17. The module never takes a handler off a detector: through every
    later construction, lifecycle call, subscription and signal a detector
    keeps the handlers the module registered on it, also after it was
    stopped, paused or replaced. *)
Theorem X17_detector_keeps_its_handlers s s' d D
    (Hlater : rtc step s s') (HD : detectors s !! d = Some D) :
  ∃ D', detectors s' !! d = Some D' ∧ det_handlers D' = det_handlers D.
Proof.
  destruct (detector_kept s s' d D Hlater HD) as (D' & HD' & Hh & _). by exists D'.
Qed.

Lemma rtc_listening_cycled : rtc step listening cycled.
Proof.
  unfold cycled.
  eapply rtc_r; [|apply step_resume].
  eapply rtc_r; [|apply step_pause].
  eapply rtc_r; [|apply step_start].
  eapply rtc_r; [|apply step_stop].
  apply rtc_refl.
Qed.

Lemma X17_detector_keeps_its_handlers_witness :
  rtc step listening cycled ∧
  detectors listening !! 0
    = Some {| det_options := Some defaultDetector; det_handlers := four_handlers 0;
              det_resets := 0 |} ∧
  ∃ D', detectors cycled !! 0 = Some D' ∧ det_handlers D' = four_handlers 0.
Proof.
  assert (HD : detectors listening !! 0
               = Some {| det_options := Some defaultDetector;
                         det_handlers := four_handlers 0; det_resets := 0 |})
    by (vm_compute; reflexivity).
  split; [apply rtc_listening_cycled|]. split; [exact HD|].
  destruct (X17_detector_keeps_its_handlers listening cycled 0 _ rtc_listening_cycled HD)
    as (D' & HD' & Hh).
  exists D'. split; [exact HD'|exact Hh].
Defined.

Lemma handler_outcome_front insts h sig :
  Forall (λ e, is_logging e = true ∨ is_emit e = true) (handler_outcome insts h sig).1.
Proof.
  destruct h as [i|i|i|i], sig as [|index hotword buf| |buf];
    cbn [handler_outcome fst]; try (by constructor);
    destruct (insts !! i) as [inst|]; cbn [fst]; try (by constructor).
  all: try destruct (has_listener NError inst).
  all: try destruct (inst_logger inst) as [l|].
  all: cbn [fst warn_line log_line app].
  all: repeat (apply Forall_cons; split; [first [by left|by right]|]).
  all: apply Forall_nil_2.
Qed.

Lemma handlers_outcome_front insts hs sig :
  Forall (λ e, is_logging e = true ∨ is_emit e = true) (handlers_outcome insts hs sig).1.
Proof.
  induction hs as [|h hs IH]; [by constructor|].
  cbn [handlers_outcome].
  pose proof (handler_outcome_front insts h sig) as Hh.
  destruct (handler_outcome insts h sig) as [l [e|]]; [done|].
  destruct (handlers_outcome insts hs sig) as [l' r].
  cbn [fst] in *. by apply Forall_app.
Qed.

(** X18. A signal raised by a detector, whatever the detector and the
    state, changes no binding, no detector, no listener and no option or
    model object, and makes no call but logger calls and [emit].  A
    hotword, silence or sound signal changes nothing else either; an error
    signal takes the detector out of the pipes of every recorder, through
    the listener [pipe] put on it, and leaves the recorders as they were
    otherwise. *)
Theorem X18_what_a_signal_changes d sig s :
  let r := Detector_emit d sig s in
  final_state r = add_trace (added s r) (faulted d sig s) ∧
  Forall (λ e, is_logging e = true ∨ is_emit e = true) (added s r) ∧
  (sig ≠ SigError → faulted d sig s = s) ∧
  faulted d SigError s = set_recorders (fmap (drop_pipe d)) s.
Proof.
  cbv zeta. rewrite Detector_emit_added, Detector_emit_eq, final_state_outcome.
  split; [done|]. split.
  - unfold signal_outcome.
    destruct (detectors s !! d); [apply handlers_outcome_front|by constructor].
  - split; [by destruct sig|done].
Qed.

Lemma listener_kept_step s s' i inst :
  step s s' → instances s !! i = Some inst →
  ∃ inst', instances s' !! i = Some inst' ∧ inst_logger inst' = inst_logger inst.
Proof.
  intros Hstep Hi.
  destruct (step_inv s s' Hstep)
    as [(md & dd & rp & lg & ->)|[(setup & c & msg & this & ->)|
        [(this & n & f & ->)|[(l & ->)|(l & d' & ->)]]]].
  - exists inst. split; [|done]. unfold after_constructor. proj.
    by apply lookup_app_l_Some.
  - destruct (lifecycle_fields setup c msg this s) as (_&_& Ei &_).
    rewrite Ei. by exists inst.
  - proj. destruct (decide (this = i)) as [->|Hne].
    + rewrite list_lookup_alter_eq, Hi. by eexists.
    + rewrite list_lookup_alter_ne by done. by exists inst.
  - by exists inst.
  - by exists inst.
Qed.

Lemma listener_kept s s' i inst :
  rtc step s s' → instances s !! i = Some inst →
  ∃ inst', instances s' !! i = Some inst' ∧ inst_logger inst' = inst_logger inst.
Proof.
  intros Hlater. revert inst.
  induction Hlater as [s|s s1 s' Hstep _ IH]; intros inst Hi; [by exists inst|].
  destruct (listener_kept_step s s1 i inst Hstep Hi) as (inst1 & Hi1 & Hl1).
  destruct (IH inst1 Hi1) as (inst' & Hi' & Hl').
  exists inst'. split; [done|]. congruence.
Qed.

(** X19. A detector goes on forwarding for the rest of the module's life:
    once a [start()] has returned, then after any further constructions,
    lifecycle calls (a [stop()], a later [start()] of this or another
    listener that replaces the detector), subscriptions and signals, a
    hotword signal of the detector that [start()] created still makes the
    listener that started it emit [hotword] with the same arguments. *)
Theorem X19_replaced_detector_still_forwards
    this this' s s1 s' index label buf
    (Hstart : start this s = Ok this' s1) (Hlater : rtc step s1 s') :
  ∃ inst, instances s !! this = Some inst ∧
    Detector_emit (length (detectors s)) (SigHotword index label buf) s'
    = Ok tt (add_trace (log_line (inst_logger inst) (hotword_message index label)
                          ++ [EEmit this (EvHotword index label buf)]) s').
Proof.
  destruct (started_signal_outcome this this' s s1 Hstart) as (_ & _ & Hi & _).
  rewrite start_lifecycle in Hstart.
  assert (is_Some (instances s !! this)) as [inst Ei].
  { rewrite lifecycle_eq in Hstart. unfold after_lifecycle in Hstart.
    destruct (audioRecorder s); [|done]. by destruct (instances s !! this). }
  assert (HD : detectors s1 !! length (detectors s) = Some (fresh_detector this s)).
  { destruct (lifecycle_detectors true CStart "HotwordDetector: Started detecting." this s)
      as [(? & _)|(_ & _ & E2)]; [done|].
    assert (s1 = final_state (lifecycle true CStart
                  "HotwordDetector: Started detecting." this s)) as -> by (by rewrite Hstart).
    rewrite E2. apply list_lookup_middle. by rewrite reset_prior_length. }
  destruct (detector_kept s1 s' _ _ Hlater HD) as (D' & HD' & Hh & _).
  destruct (listener_kept s1 s' this inst Hlater) as (inst' & Hi' & Hl'); [by rewrite Hi|].
  exists inst. split; [done|].
  rewrite Detector_emit_eq. cbn [faulted]. unfold signal_outcome. rewrite HD', Hh.
  cbn [fresh_detector det_handlers handlers_outcome handler_outcome].
  rewrite Hi', Hl'. cbn [outcome_result]. by rewrite app_nil_r.
Qed.

Lemma X19_replaced_detector_still_forwards_witness :
  start 0 after_first = Ok 0 listening ∧ rtc step listening cycled ∧
  Detector_emit 0 (SigHotword 0 "snowboy" []) cycled
  = Ok tt (add_trace [EEmit 0 (EvHotword 0 "snowboy" [])] cycled).
Proof.
  assert (H : start 0 after_first = Ok 0 listening) by (vm_compute; reflexivity).
  split; [exact H|]. split; [apply rtc_listening_cycled|].
  destruct (X19_replaced_detector_still_forwards 0 0 after_first listening cycled
              0 "snowboy" [] H rtc_listening_cycled) as (inst & Hi & He).
  assert (Hl : inst_logger inst = None).
  { vm_compute in Hi. injection Hi as <-. reflexivity. }
  rewrite Hl in He. exact He.
Defined.

(** ** Stopped detectors and detector faults *)

Lemma pipes_bound_step s s' : pipes_bound s → step s s' → pipes_bound s'.
Proof.
  intros Hs Hstep.
  destruct (step_inv s s' Hstep)
    as [(md & dd & rp & lg & ->)|[(setup & c & msg & this & ->)|
        [(this & n & f & ->)|[(l & ->)|(l & d' & ->)]]]].
  - intros r R d. unfold after_constructor. proj.
    intros [HR|[_ HR]]%lookup_app_Some Hd; [by eapply Hs|].
    apply list_lookup_singleton_Some in HR as [_ <-]. by apply elem_of_nil in Hd.
  - intros r R d HR Hd.
    assert (Hlen : length (detectors s)
                   ≤ length (detectors (final_state (lifecycle setup c msg this s)))).
    { destruct (lifecycle_detectors setup c msg this s)
        as [(_ & _ & E2)|(_ & _ & E2)]; rewrite E2; [done|].
      rewrite length_app, reset_prior_length. lia. }
    destruct (audioRecorder s) as [r0|] eqn:Hr0.
    2: { destruct (lifecycle_fields setup c msg this s) as (_&_&_&_&_&_&_&_& Er &_).
         rewrite Er, Hr0 in HR. specialize (Hs r R d HR Hd). lia. }
    rewrite (lifecycle_recorders _ _ _ _ _ r0) in HR by done.
    destruct (decide (r0 = r)) as [->|Hne].
    2: { rewrite list_lookup_alter_ne in HR by done. specialize (Hs r R d HR Hd). lia. }
    rewrite list_lookup_alter_eq in HR.
    destruct (recorders s !! r) as [R0|] eqn:HR0; [|done].
    injection HR as <-. cbn [set_rec_pipes rec_pipes set_rec_state] in Hd.
    destruct setup.
    + cbn [rewire] in Hd. apply elem_of_app in Hd as [Hd|Hd%list_elem_of_singleton].
      * specialize (Hs r R0 d HR0 Hd). lia.
      * subst d.
        destruct (lifecycle_detectors true c msg this s)
          as [(? & _)|(_ & _ & E2)]; [done|].
        rewrite E2, length_app, reset_prior_length. cbn [length]. lia.
    + assert (d ∈ rec_pipes R0) as Hd0.
      { cbn [rewire] in Hd. destruct (detector s); [|by apply elem_of_nil in Hd].
        by apply list_elem_of_filter in Hd as [_ ?]. }
      specialize (Hs r R0 d HR0 Hd0). lia.
  - exact Hs.
  - exact Hs.
  - intros r R d. proj. rewrite list_lookup_fmap. intros HR Hd.
    destruct (recorders s !! r) as [R0|] eqn:HR0; [|done].
    injection HR as <-. cbn [drop_pipe set_rec_pipes rec_pipes] in Hd.
    apply list_elem_of_filter in Hd as [_ Hd]. by eapply Hs.
Qed.

Lemma reachable_pipes_bound s : reachable s → pipes_bound s.
Proof.
  revert s. apply reachable_ind.
  - intros r R d HR. by cbn in HR.
  - intros s s' _ IH Hstep. by eapply pipes_bound_step.
Qed.

Lemma reachable_handlers_ok s : reachable s → handlers_ok s.
Proof.
  revert s. apply reachable_ind.
  - intros d D HD. by cbn in HD.
  - intros s s' _ IH Hstep. by eapply handlers_ok_step.
Qed.

Lemma lifecycle_disconnects c1 msg1 c2 msg2 :
  disconnects (lifecycle true c1 msg1) (lifecycle false c2 msg2).
Proof.
  intros this this' that s s1 Hreach Hstart r R HR Hin.
  assert (∃ r0, audioRecorder s = Some r0) as [r0 Hr0].
  { rewrite lifecycle_eq in Hstart. unfold after_lifecycle in Hstart.
    destruct (audioRecorder s); [eauto|done]. }
  assert (Hs1 : s1 = final_state (lifecycle true c1 msg1 this s)) by (by rewrite Hstart).
  assert (Ha1 : audioRecorder s1 = Some r0).
  { destruct (lifecycle_fields true c1 msg1 this s) as (_&_&_& Ea &_).
    by rewrite Hs1, Ea. }
  assert (Hd1 : detector s1 = Some (length (detectors s))).
  { destruct (lifecycle_detectors true c1 msg1 this s) as [(? & _)|(_ & E1 & _)]; [done|].
    by rewrite Hs1. }
  rewrite (lifecycle_recorders _ _ _ _ _ r0) in HR by done.
  destruct (decide (r0 = r)) as [->|Hne].
  - rewrite list_lookup_alter_eq in HR.
    destruct (recorders s1 !! r) as [R1|]; [|done].
    injection HR as <-. rewrite Hd1 in Hin.
    cbn [set_rec_pipes rec_pipes rewire] in Hin.
    by apply list_elem_of_filter in Hin as [? _].
  - rewrite list_lookup_alter_ne in HR by done.
    rewrite Hs1, (lifecycle_recorders _ _ _ _ _ r0) in HR by done.
    rewrite list_lookup_alter_ne in HR by done.
    pose proof (reachable_pipes_bound s Hreach r R _ HR Hin). lia.
Qed.

(** With the recorder rebound by a construction in between, [stop()]
    commands and unpipes the new recorder: the recorder that feeds the
    first listener's detector goes on recording into it. *)
Lemma stop_after_rebinding_leaves_pipe :
  audioRecorder rebound_stopped = Some 1 ∧
  rec_state <$> recorders rebound_stopped !! 0 = Some RecRecording ∧
  rec_pipes <$> recorders rebound_stopped !! 0 = Some [0].
Proof. repeat apply conj; vm_compute; reflexivity. Qed.

(** C3, amended. [stop()] and [pause()] leave every detector as it is,
    handlers included, and take the bound detector out of the pipes of the
    bound recorder; any signal a detector raises afterwards has on the
    listener exactly the effect it had before the call.  When the call
    directly follows the [start()] or [resume()] that set the detector up,
    the detector is then in no recorder's pipes at all. *)
Theorem C3_stop_unpipes_handlers_stay :
  unpipes_but_keeps_forwarding stop ∧ unpipes_but_keeps_forwarding pause ∧
  disconnects start stop ∧ disconnects start pause ∧
  disconnects resume stop ∧ disconnects resume pause.
Proof.
  repeat apply conj.
  - intros this s. rewrite stop_lifecycle. apply lifecycle_keeps_forwarding.
  - intros this s. rewrite pause_lifecycle. apply lifecycle_keeps_forwarding.
  - intros this this' that s s1. rewrite start_lifecycle, stop_lifecycle.
    apply lifecycle_disconnects.
  - intros this this' that s s1. rewrite start_lifecycle, pause_lifecycle.
    apply lifecycle_disconnects.
  - intros this this' that s s1. rewrite resume_lifecycle, stop_lifecycle.
    apply lifecycle_disconnects.
  - intros this this' that s s1. rewrite resume_lifecycle, pause_lifecycle.
    apply lifecycle_disconnects.
Qed.

Lemma C3_stop_unpipes_handlers_stay_witness :
  reachable after_first ∧ start 0 after_first = Ok 0 listening ∧
  audioRecorder listening = Some 0 ∧ detector listening = Some 0 ∧
  (∀ r R, recorders (final_state (stop 0 listening)) !! r = Some R →
          length (detectors after_first) ∉ rec_pipes R) ∧
  (∀ R', recorders (final_state (stop 0 listening)) !! 0 = Some R' → 0 ∉ rec_pipes R') ∧
  added (final_state (stop 0 listening))
      (Detector_emit 0 (SigHotword 0 "snowboy" []) (final_state (stop 0 listening)))
    = added listening (Detector_emit 0 (SigHotword 0 "snowboy" []) listening).
Proof.
  assert (Hstart : start 0 after_first = Ok 0 listening) by (vm_compute; reflexivity).
  assert (Hr : audioRecorder listening = Some 0) by (vm_compute; reflexivity).
  assert (Hd : detector listening = Some 0) by (vm_compute; reflexivity).
  destruct C3_stop_unpipes_handlers_stay as (Hstop & _ & Hdisc & _).
  destruct (Hstop 0 listening) as (_ & Hpipe & Hsig).
  split; [apply reachable_after_first|]. split; [exact Hstart|].
  split; [exact Hr|]. split; [exact Hd|]. split; [|split].
  - exact (Hdisc 0 0 0 after_first listening reachable_after_first Hstart).
  - intros R' HR'. exact (Hpipe 0 0 R' Hr Hd HR').
  - exact (proj1 (Hsig 0 (SigHotword 0 "snowboy" []))).
Defined.

(** C7, as stated, fails: a listener nobody subscribed to for ['error']
    does not surface a detector fault as an event; the emitter raises it.
    The fault also takes the detector out of the recorder's pipes, while
    the recorder goes on recording. *)
Lemma C7_unheard_error_is_thrown :
  start 0 after_first = Ok 0 listening ∧
  detector listening = Some 0 ∧
  Detector_emit 0 SigError listening
    = Throw (UnhandledError "HotwordDetector: Detector error.")
        (faulted 0 SigError listening) ∧
  rec_pipes <$> recorders listening !! 0 = Some [0] ∧
  rec_pipes <$> recorders (faulted 0 SigError listening) !! 0 = Some [] ∧
  rec_state <$> recorders (faulted 0 SigError listening) !! 0 = Some RecRecording.
Proof. repeat apply conj; vm_compute; reflexivity. Qed.

Lemma lifecycle_wires_caller c msg this this' s s1 :
  lifecycle true c msg this s = Ok this' s1 →
  ∃ d D inst, detector s1 = Some d ∧ detectors s1 !! d = Some D ∧
              det_handlers D = four_handlers this ∧ instances s1 !! this = Some inst.
Proof.
  intros Hrun.
  assert (Hs1 : s1 = final_state (lifecycle true c msg this s)) by (by rewrite Hrun).
  rewrite lifecycle_eq in Hrun. unfold after_lifecycle in Hrun.
  destruct (audioRecorder s); [|done].
  destruct (instances s !! this) as [inst|] eqn:Hi; [|done].
  destruct (lifecycle_detectors true c msg this s) as [(? & _)|(_ & E1 & E2)]; [done|].
  destruct (lifecycle_fields true c msg this s) as (_&_& Ei &_).
  exists (length (detectors s)), (fresh_detector this s), inst. subst s1.
  split; [done|]. split; [|split; [done|by rewrite Ei]].
  rewrite E2. apply list_lookup_middle. by rewrite reset_prior_length.
Qed.

(** C7, amended. A fault reported by any detector the module has set up,
    by [start()] or by [resume()], at any later time: the listener that
    set the detector up warns through its logger exactly when it has one;
    the module sends no command to a recorder and changes no binding and
    no detector, so capture goes on, every recorder in the state it had,
    the only change being that the faulting detector leaves the pipes.
    The handler returns normally exactly when somebody listens for
    ['error'] on the listener, and then the fault is surfaced as one
    ['error'] event carrying the fixed message. *)
Theorem C7_fault_is_error_event_when_heard :
  (∀ s d D, reachable s → detectors s !! d = Some D →
     ∃ this, det_handlers D = four_handlers this ∧
     ∀ inst, instances s !! this = Some inst →
       let r := Detector_emit d SigError s in
       (is_Ok r ↔ has_listener NError inst = true) ∧
       (has_listener NError inst = true →
          added s r = warn_line (inst_logger inst) error_message
                        ++ [EEmit this (EvError error_message)]) ∧
       filter (λ e, is_logging e = true) (added s r)
         = warn_line (inst_logger inst) error_message ∧
       filter (λ e, is_recorder_call e = true) (added s r) = [] ∧
       recorders (final_state r) = drop_pipe d <$> recorders s ∧
       rec_state <$> recorders (final_state r) = rec_state <$> recorders s ∧
       audioRecorder (final_state r) = audioRecorder s ∧
       detector (final_state r) = detector s ∧
       detectors (final_state r) = detectors s) ∧
  (∀ this this' s s1,
     start this s = Ok this' s1 ∨ resume this s = Ok this' s1 →
     ∃ d D inst, detector s1 = Some d ∧ detectors s1 !! d = Some D ∧
                 det_handlers D = four_handlers this ∧
                 instances s1 !! this = Some inst).
Proof.
  split.
  - intros s d D Hreach HD.
    destruct (reachable_handlers_ok s Hreach d D HD) as [this Hh].
    exists this. split; [done|]. intros inst Hi. cbv zeta.
    rewrite Detector_emit_added, Detector_emit_is_Ok.
    rewrite Detector_emit_eq, final_state_outcome. cbn [faulted]. proj.
    unfold signal_outcome. rewrite HD, Hh.
    cbn [four_handlers handlers_outcome handler_outcome]. rewrite Hi.
    assert (Hst : rec_state <$> (drop_pipe d <$> recorders s) = rec_state <$> recorders s).
    { rewrite <- list_fmap_compose. by apply list_fmap_ext. }
    destruct (has_listener NError inst), (inst_logger inst) as [l|];
      cbn [fst snd warn_line app]; repeat apply conj; done.
  - intros this this' s s1 [H|H].
    + rewrite start_lifecycle in H. by eapply lifecycle_wires_caller.
    + rewrite resume_lifecycle in H. by eapply lifecycle_wires_caller.
Qed.

Lemma reachable_subscribed_listening : reachable subscribed_listening.
Proof.
  unfold subscribed_listening, subscribed.
  eapply reachable_step; [|apply step_start].
  eapply reachable_step; [|apply step_on].
  apply reachable_after_first.
Qed.

Lemma C7_fault_is_error_event_when_heard_witness :
  reachable subscribed_listening ∧
  detectors subscribed_listening !! 0
    = Some {| det_options := Some defaultDetector; det_handlers := four_handlers 0;
              det_resets := 0 |} ∧
  instances subscribed_listening !! 0
    = Some {| inst_logger := None; inst_listeners := [(NError, 7)] |} ∧
  is_Ok (Detector_emit 0 SigError subscribed_listening) ∧
  added subscribed_listening (Detector_emit 0 SigError subscribed_listening)
    = [EEmit 0 (EvError error_message)].
Proof.
  assert (HD : detectors subscribed_listening !! 0
               = Some {| det_options := Some defaultDetector;
                         det_handlers := four_handlers 0; det_resets := 0 |})
    by (vm_compute; reflexivity).
  assert (Hi : instances subscribed_listening !! 0
               = Some {| inst_logger := None; inst_listeners := [(NError, 7)] |})
    by (vm_compute; reflexivity).
  split; [apply reachable_subscribed_listening|]. split; [exact HD|]. split; [exact Hi|].
  destruct (proj1 C7_fault_is_error_event_when_heard subscribed_listening 0 _
              reachable_subscribed_listening HD) as (this & Hh & Hall).
  assert (this = 0) as -> by (by injection Hh).
  destruct (Hall _ Hi) as (Hok & Hadd & _).
  split.
  - apply Hok. reflexivity.
  - exact (Hadd eq_refl).
Defined.
